(** * FlattenParamsWrapper: key remapping and representation toggle

    A shallow embedding of
    [torch/distributed/fsdp/flatten_params_wrapper.py]:
    the two state-dict hooks that rename persisted-state keys, and the
    [FlattenParamsWrapper] class that registers and de-registers its
    flattened parameter around the [unflatten_as_params] context.

    Python objects are modelled with explicit state passing.  A state dict is
    an insertion-ordered association list (the hooks iterate over a snapshot
    of its keys and mutate it in place); the wrapper's [_parameters] registry
    is a finite map from names to values; methods that can raise return a
    [result]. *)

From Stdlib Require Import Ascii.
From stdpp Require Import gmap strings list fin_maps.

(** ** Exceptions and results *)

Inductive Exn : Type :=
| AssertionError (msg : string)
| AttributeError (msg : string)
| ValueError (msg : string)
| KeyError (key : string)
| RecursionError
| Exception (kind msg : string).

Inductive result (A : Type) : Type :=
| Ok (a : A)
| Raise (e : Exn).
Arguments Ok {A} a.
Arguments Raise {A} e.

(** A computation over a mutable state [S]: it returns a value or raises,
    and in both cases leaves a state behind. *)
Definition St (S A : Type) : Type := S -> result A * S.

Definition ret {S A} (a : A) : St S A := fun s => (Ok a, s).
Definition raise {S A} (e : Exn) : St S A := fun s => (Raise e, s).
Definition bind {S A B} (m : St S A) (k : A -> St S B) : St S B :=
  fun s => match m s with
           | (Ok a, s') => k a s'
           | (Raise e, s') => (Raise e, s')
           end.
Definition get {S} : St S S := fun s => (Ok s, s).
Definition put {S} (s : S) : St S unit := fun _ => (Ok tt, s).
Definition modify {S} (f : S -> S) : St S unit := fun s => (Ok tt, f s).

Notation "x <- m ;; k" := (bind m (fun x => k))
  (at level 100, m at next level, right associativity).
Notation "m ;;; k" := (bind m (fun _ => k))
  (at level 100, right associativity).

(** [try: body finally: fin].  The [finally] block runs on both paths; an
    exception raised by [fin] itself replaces the pending outcome. *)
Definition try_finally {S A} (body : St S A) (fin : St S unit) : St S A :=
  fun s => match body s with
           | (r, s') => match fin s' with
                        | (Ok _, s'') => (r, s'')
                        | (Raise e, s'') => (Raise e, s'')
                        end
           end.

(** [for x in xs: body x], stopping at the first exception. *)
Fixpoint for_each {S X} (xs : list X) (body : X -> St S unit) : St S unit :=
  match xs with
  | [] => ret tt
  | x :: xs' => body x ;;; for_each xs' body
  end.

(** ** Strings as Python uses them in the hooks *)

(** [s.startswith(p)] *)
Fixpoint startswith (s p : string) {struct p} : bool :=
  match p with
  | EmptyString => true
  | String a p' =>
      match s with
      | EmptyString => false
      | String b s' => Ascii.eqb b a && startswith s' p'
      end
  end.

(** [s[n:]] *)
Fixpoint string_drop (n : nat) (s : string) : string :=
  match n with
  | O => s
  | S n' => match s with
            | EmptyString => EmptyString
            | String _ s' => string_drop n' s'
            end
  end.

(** [s.split(".")]: never empty, an empty string gives one empty segment. *)
Fixpoint split_dot (s : string) : list string :=
  match s with
  | EmptyString => [EmptyString]
  | String c s' =>
      if Ascii.eqb c "."%char then EmptyString :: split_dot s'
      else match split_dot s' with
           | [] => [String c EmptyString]
           | seg :: segs => String c seg :: segs
           end
  end.

(** [s.split(".")[-1]] *)
Definition last_part (s : string) : string := List.last (split_dot s) EmptyString.

(** No ["."] occurs in [s]. *)
Fixpoint nodot (s : string) : bool :=
  match s with
  | EmptyString => true
  | String c s' => negb (Ascii.eqb c "."%char) && nodot s'
  end.

Definition FLAT_PARAM : string := "flat_param".
Definition FPW_MODULE : string := "_fpw_module".

(** ** State dicts *)

(** A Python [dict] with string keys: insertion-ordered, keys pairwise
    distinct. *)
Abbreviation dict V := (list (string * V)).

Definition keys {V} (d : dict V) : list string := d.*1.

Definition dict_wf {V} (d : dict V) : Prop := NoDup (keys d).

Fixpoint dict_get {V} (k : string) (d : dict V) : option V :=
  match d with
  | [] => None
  | (k', v) :: d' => if String.eqb k' k then Some v else dict_get k d'
  end.

(** [d[k] = v]: an existing key keeps its position, a new one is appended. *)
Fixpoint dict_set {V} (k : string) (v : V) (d : dict V) : dict V :=
  match d with
  | [] => [(k, v)]
  | (k', v') :: d' =>
      if String.eqb k' k then (k', v) :: d' else (k', v') :: dict_set k v d'
  end.

Fixpoint dict_del {V} (k : string) (d : dict V) : dict V :=
  match d with
  | [] => []
  | (k', v') :: d' =>
      if String.eqb k' k then dict_del k d' else (k', v') :: dict_del k d'
  end.

(** [list(d.keys())] *)
Definition dict_keys {V} : St (dict V) (list string) :=
  fun d => (Ok (keys d), d).

(** [d[k]] read: [KeyError] when the key is missing. *)
Definition dict_getitem {V} (k : string) : St (dict V) V :=
  fun d => match dict_get k d with
           | Some v => (Ok v, d)
           | None => (Raise (KeyError k), d)
           end.

Definition dict_setitem {V} (k : string) (v : V) : St (dict V) unit :=
  modify (dict_set k v).

(** [del d[k]]: [KeyError] when the key is missing. *)
Definition dict_delitem {V} (k : string) : St (dict V) unit :=
  fun d => match dict_get k d with
           | Some _ => (Ok tt, dict_del k d)
           | None => (Raise (KeyError k), d)
           end.

(** ** The key remapper *)

(** Modelled from the spec: [torch.distributed.utils._replace_by_prefix] is
    imported by the file but is not among the sources.  The spec has the
    hooks rewrite every key that begins with one prefix so that it begins
    with another, in place; the model walks a snapshot of the keys, stores
    the value under the new name and deletes the old name ([move_key]), and
    refuses two equal prefixes. *)
Definition move_key {V} (old_prefix new_prefix key : string)
  : St (dict V) unit :=
  if negb (startswith key old_prefix) then ret tt
  else
    let new_key :=
      new_prefix +:+ string_drop (String.length old_prefix) key in
    v <- dict_getitem key ;;
    dict_setitem new_key v ;;;
    dict_delitem key.

Definition _replace_by_prefix {V} (old_prefix new_prefix : string)
  : St (dict V) unit :=
  if String.eqb old_prefix new_prefix
  then raise (ValueError "old_prefix and new_prefix must be distinct")
  else
    ks <- dict_keys ;;
    for_each ks (move_key old_prefix new_prefix).

(** Move everything from [FPW_MODULE] up one level. *)
Definition _post_state_dict_hook {V} (prefix : string)
  : St (dict V) (dict V) :=
  _replace_by_prefix (prefix +:+ FPW_MODULE +:+ ".") prefix ;;;
  get.

(** The body of the loop of [_pre_load_state_dict_hook]: a key under
    [flat_param_key] must end in a [flat_param] segment and moves one level
    up. *)
Definition lift_flat_param {V} (prefix flat_param_key k : string)
  : St (dict V) unit :=
  if startswith k flat_param_key then
    let last := last_part k in
    if startswith last FLAT_PARAM
    then _replace_by_prefix k (prefix +:+ last)
    else raise (AssertionError
           ("Expected key to contain flat_param, but key name is " +:+ k))
  else ret tt.

(** Push everything down to [FPW_MODULE] level, then move the
    [flat_param_*] keys one level up again. *)
Definition _pre_load_state_dict_hook {V} (prefix : string)
  : St (dict V) unit :=
  _replace_by_prefix prefix (prefix +:+ FPW_MODULE +:+ ".") ;;;
  let flat_param_key := prefix +:+ FPW_MODULE +:+ "." +:+ FLAT_PARAM in
  ks <- dict_keys ;;
  for_each ks (lift_flat_param prefix flat_param_key).

(** ** Values, the handle and the wrapped module *)

(** Tensors are known by identity only. *)
Inductive Tensor : Type :=
| OrigParameter (id : nat)
| FlatParameter (params : list nat).

Global Instance Tensor_eq_dec : EqDecision Tensor.
Proof. solve_decision. Defined.

(** Modelled from the spec: [FlatParamHandle] is defined in [flat_param.py],
    which is not among the sources.  The handle is built over the parameter
    list, the module, the device and the configuration; it owns the flattened
    parameter and keeps the [use_orig_params] flag it was built with. *)
Record FlatParamHandle : Type := {
  handle_params : list nat;
  handle_module : string;
  handle_device : string;
  handle_config : list string;
  handle_flat_param : Tensor;
  handle_use_orig_params : bool
}.

Global Instance FlatParamHandle_eq_dec : EqDecision FlatParamHandle.
Proof. solve_decision. Defined.

Inductive Value : Type :=
| VNone
| VBool (b : bool)
| VTensor (t : Tensor)
| VHandle (h : FlatParamHandle)
| VModule (name : string)
| VObject (id : nat).

Global Instance Value_eq_dec : EqDecision Value.
Proof. solve_decision. Defined.

(** Python truthiness, as [not x] needs it. *)
Definition truthy (v : Value) : bool :=
  match v with
  | VNone => false
  | VBool b => b
  | _ => true
  end.

(** For each handle, whether the original parameters are currently installed
    in the wrapped module as [nn.Parameter] views into the flattened
    parameter.  This is the only state that the handle, the wrapped module
    and the caller's code share with the wrapper. *)
Abbreviation Views := (FlatParamHandle -> bool).

Definition views_set (h : FlatParamHandle) (b : bool) (v : Views) : Views :=
  fun h' => if decide (h' = h) then b else v h'.

(** The wrapped module, an external collaborator: what its attribute lookup,
    its indexing and its call do. *)
Record Module : Type := {
  module_name : string;
  module_getattr : string -> result Value;
  module_getitem : Z -> result Value;
  module_call :
    list Value -> list (string * Value) -> Views -> result Value * Views
}.

(** The calls that the wrapper makes to its collaborators, in order. *)
Inductive Event : Type :=
| use_unsharded_views (h : FlatParamHandle) (as_params : bool)
| call_module (name : string) (inputs : list Value)
    (kwinputs : list (string * Value)).

Inductive Hook : Type :=
| post_state_dict_hook
| pre_load_state_dict_hook.

(** ** The wrapper object *)

(** The attributes of a [FlattenParamsWrapper].  [_parameters] is the
    registry of [nn.Module]; [_fpw_module] is the only sub-module;
    [_flat_param_handle] and [_use_orig_params] exist only when [__init__]
    was given parameters. *)
Record FlattenParamsWrapper : Type := {
  _fpw_module : option Module;
  _parameters : gmap string Value;
  _state_dict_hooks : list Hook;
  _load_state_dict_pre_hooks : list Hook;
  _flat_param_handle : option FlatParamHandle;
  _use_orig_params : option bool
}.

Record World : Type := {
  self : FlattenParamsWrapper;
  views : Views;
  trace : list Event
}.

Abbreviation M := (St World).

Definition set_self (f : FlattenParamsWrapper -> FlattenParamsWrapper)
  : M unit :=
  modify (fun w => {| self := f (self w); views := views w; trace := trace w |}).

Definition set_parameters (f : gmap string Value -> gmap string Value)
    (o : FlattenParamsWrapper) : FlattenParamsWrapper :=
  {| _fpw_module := _fpw_module o;
     _parameters := f (_parameters o);
     _state_dict_hooks := _state_dict_hooks o;
     _load_state_dict_pre_hooks := _load_state_dict_pre_hooks o;
     _flat_param_handle := _flat_param_handle o;
     _use_orig_params := _use_orig_params o |}.

Definition set_flat_param_handle (h : FlatParamHandle)
    (o : FlattenParamsWrapper) : FlattenParamsWrapper :=
  {| _fpw_module := _fpw_module o;
     _parameters := _parameters o;
     _state_dict_hooks := _state_dict_hooks o;
     _load_state_dict_pre_hooks := _load_state_dict_pre_hooks o;
     _flat_param_handle := Some h;
     _use_orig_params := _use_orig_params o |}.

Definition set_use_orig_params (b : bool)
    (o : FlattenParamsWrapper) : FlattenParamsWrapper :=
  {| _fpw_module := _fpw_module o;
     _parameters := _parameters o;
     _state_dict_hooks := _state_dict_hooks o;
     _load_state_dict_pre_hooks := _load_state_dict_pre_hooks o;
     _flat_param_handle := _flat_param_handle o;
     _use_orig_params := Some b |}.

(** A pure lookup used as a step of a computation. *)
Definition lift {A} (r : result A) : M A := fun w => (r, w).

(** Code of the caller or of a collaborator: it sees the views only. *)
Definition lift_views {A} (f : Views -> result A * Views) : M A :=
  fun w => let (r, v) := f (views w) in
           (r, {| self := self w; views := v; trace := trace w |}).

Definition log (e : Event) : M unit :=
  modify (fun w =>
    {| self := self w; views := views w; trace := trace w ++ [e] |}).

(** ** The handle's methods *)

(** Modelled from the spec: [handle.materialize_aggregated_live(as_params)]
    ([_use_unsharded_views] in the code).  With [as_params] the original
    parameters become parameter views; without, they are plain aliases and
    no parameter view stays installed. *)
Definition FlatParamHandle__use_unsharded_views (h : FlatParamHandle)
    (as_params : bool) : M unit :=
  log (use_unsharded_views h as_params) ;;;
  modify (fun w =>
    {| self := self w; views := views_set h as_params (views w);
       trace := trace w |}).

(** Modelled from the spec: [handle.scoped_unflatten_as_views()]
    ([unflatten_as_params] of the handle in the code) installs the views,
    runs the block and retracts the views on every exit. *)
Definition FlatParamHandle_unflatten_as_params {A} (h : FlatParamHandle)
    (body : M A) : M A :=
  FlatParamHandle__use_unsharded_views h true ;;;
  try_finally body (FlatParamHandle__use_unsharded_views h false).

(** Modelled from the spec: the constructor of the handle, which builds the
    flattened parameter over the given ones. *)
Definition FlatParamHandle_new (params : list nat) (module : Module)
    (device : string) (config : list string) (use_orig_params : bool)
  : FlatParamHandle :=
  {| handle_params := params;
     handle_module := module_name module;
     handle_device := device;
     handle_config := config;
     handle_flat_param := FlatParameter params;
     handle_use_orig_params := use_orig_params |}.

(** Attribute access on a value that the wrapper holds: only a handle has
    the attributes that the wrapper reads. *)
Definition value_getattr (v : Value) (name : string) : result Value :=
  match v with
  | VHandle h =>
      if String.eqb name "flat_param" then Ok (VTensor (handle_flat_param h))
      else if String.eqb name "_use_orig_params"
      then Ok (VBool (handle_use_orig_params h))
      else Raise (AttributeError name)
  | _ => Raise (AttributeError name)
  end.

Definition as_handle (v : Value) : result FlatParamHandle :=
  match v with
  | VHandle h => Ok h
  | _ => Raise (AttributeError "unflatten_as_params")
  end.

(** ** Attribute lookup on the wrapper *)

Definition no_attribute (name : string) : Exn :=
  AttributeError
    ("'FlattenParamsWrapper' object has no attribute '" +:+ name +:+ "'").

(** Modelled from the spec: [torch.nn.Module.__getattr__] is not among the
    sources.  It serves the registered parameters and the sub-modules (here
    [_fpw_module] alone) and raises [AttributeError] for any other name. *)
Definition nn_Module___getattr__ (o : FlattenParamsWrapper) (name : string)
  : result Value :=
  match _parameters o !! name with
  | Some v => Ok v
  | None =>
      match _fpw_module o with
      | Some m =>
          if String.eqb name "_fpw_module" then Ok (VModule (module_name m))
          else Raise (no_attribute name)
      | None => Raise (no_attribute name)
      end
  end.

(** [self.module], that is [self._fpw_module]: the registered sub-module.
    Before it is set the fallback of [__getattr__] would call itself for
    ever. *)
Definition module (o : FlattenParamsWrapper) : result Module :=
  match _fpw_module o with
  | Some m => Ok m
  | None => Raise RecursionError
  end.

(** Forward missing attributes of this wrapper to the wrapped module. *)
Definition __getattr__ (o : FlattenParamsWrapper) (name : string)
  : result Value :=
  match nn_Module___getattr__ o name with
  | Ok v => Ok v
  | Raise (AttributeError _) =>
      match module o with
      | Ok m => module_getattr m name
      | Raise e => Raise e
      end
  | Raise e => Raise e
  end.

(** The two instance attributes that [__init__] stores only when it is
    given parameters (lines 103 and 108).  Neither the class nor [nn.Module]
    defines these names, so Python's ordinary lookup finds them exactly when
    [__init__] stored them. *)
Definition instance_attr (o : FlattenParamsWrapper) (name : string)
  : option Value :=
  if String.eqb name "_flat_param_handle" then VHandle <$> _flat_param_handle o
  else if String.eqb name "_use_orig_params" then VBool <$> _use_orig_params o
  else None.

(** [getattr(self, name)], [hasattr(self, name)] and [self.<name>] for the
    names that the code of the wrapper itself looks up this way:
    [_flat_param_handle], [_use_orig_params] and [_fpw_module].  For these,
    ordinary lookup is [instance_attr], and Python calls [__getattr__] when
    it finds nothing.  Every other name is outside this function's domain:
    a method, a property or the state that [nn.Module] keeps on the
    instance ([training], the registries) is answered by ordinary lookup
    before [__getattr__] is tried, and nothing below asks [getattr] for
    such a name. *)
Definition getattr (o : FlattenParamsWrapper) (name : string) : result Value :=
  match instance_attr o name with
  | Some v => Ok v
  | None => __getattr__ o name
  end.

(** [hasattr(self, name)]: only an [AttributeError] means "no". *)
Definition hasattr (o : FlattenParamsWrapper) (name : string) : result bool :=
  match getattr o name with
  | Ok _ => Ok true
  | Raise (AttributeError _) => Ok false
  | Raise e => Raise e
  end.

Definition self_getattr (name : string) : M Value :=
  w <- get ;; lift (getattr (self w) name).

(** ** The methods of [FlattenParamsWrapper] *)

(** Returns whether this wrapper manages any parameters. *)
Definition has_params : M bool :=
  w <- get ;; lift (hasattr (self w) "_flat_param_handle").

Definition handle : M Value :=
  w <- get ;;
  ok <- lift (hasattr (self w) "_flat_param_handle") ;;
  if ok then self_getattr "_flat_param_handle"
  else raise (AssertionError
         ("Accessing the handle of a `FlattenParamsWrapper` that does not "
          +:+ "manage any parameters")).

Definition flat_param : M Value :=
  b <- has_params ;;
  if b then h <- handle ;; lift (value_getattr h "flat_param")
  else ret VNone.

(** [self._parameters["flat_param"] = self.flat_param] *)
Definition _register_flat_param : M unit :=
  fp <- flat_param ;;
  set_self (set_parameters (insert "flat_param" fp)).

(** [d.pop(key, default)] *)
Definition pop_default {V} (key : string) (default : V) (d : gmap string V)
  : V * gmap string V :=
  match d !! key with
  | Some v => (v, delete key d)
  | None => (default, d)
  end.

(** [self._parameters.pop("flat_param", None)] *)
Definition _deregister_flat_param : M unit :=
  set_self (set_parameters (fun d => (pop_default "flat_param" VNone d).2)).

(** The context manager: the [yield] is the place where [body] runs. *)
Definition unflatten_as_params {A} (body : M A) : M A :=
  fp <- flat_param ;;
  match fp with
  | VNone => body
  | _ =>
      _deregister_flat_param ;;;
      try_finally
        (hv <- self_getattr "_flat_param_handle" ;;
         h <- lift (as_handle hv) ;;
         FlatParamHandle_unflatten_as_params h body)
        (hv <- handle ;;
         uop <- lift (value_getattr hv "_use_orig_params") ;;
         if negb (truthy uop) then _register_flat_param else ret tt)
  end.

(** [self.module.__getitem__(key)] *)
Definition __getitem__ (key : Z) : M Value :=
  w <- get ;;
  m <- lift (module (self w)) ;;
  lift (module_getitem m key).

(** [self.module( *inputs, **kwinputs)] *)
Definition call_wrapped (inputs : list Value) (kwinputs : list (string * Value))
  : M Value :=
  w <- get ;;
  m <- lift (module (self w)) ;;
  log (call_module (module_name m) inputs kwinputs) ;;;
  lift_views (module_call m inputs kwinputs).

Definition forward (inputs : list Value) (kwinputs : list (string * Value))
  : M Value :=
  fp <- flat_param ;;
  match fp with
  | VNone => ret tt
  | _ =>
      uop <- self_getattr "_use_orig_params" ;;
      if negb (truthy uop) then
        hv <- self_getattr "_flat_param_handle" ;;
        h <- lift (as_handle hv) ;;
        FlatParamHandle__use_unsharded_views h false
      else ret tt
  end ;;;
  call_wrapped inputs kwinputs.

(** Modelled from the spec: what [nn.Module.__init__] leaves behind, empty
    registries and no hooks. *)
Definition nn_Module___init__ : FlattenParamsWrapper :=
  {| _fpw_module := None;
     _parameters := ∅;
     _state_dict_hooks := [];
     _load_state_dict_pre_hooks := [];
     _flat_param_handle := None;
     _use_orig_params := None |}.

Definition set_fpw_module (m : Module) (o : FlattenParamsWrapper)
  : FlattenParamsWrapper :=
  {| _fpw_module := Some m;
     _parameters := _parameters o;
     _state_dict_hooks := _state_dict_hooks o;
     _load_state_dict_pre_hooks := _load_state_dict_pre_hooks o;
     _flat_param_handle := _flat_param_handle o;
     _use_orig_params := _use_orig_params o |}.

Definition _register_state_dict_hook (h : Hook) (o : FlattenParamsWrapper)
  : FlattenParamsWrapper :=
  {| _fpw_module := _fpw_module o;
     _parameters := _parameters o;
     _state_dict_hooks := _state_dict_hooks o ++ [h];
     _load_state_dict_pre_hooks := _load_state_dict_pre_hooks o;
     _flat_param_handle := _flat_param_handle o;
     _use_orig_params := _use_orig_params o |}.

Definition _register_load_state_dict_pre_hook (h : Hook)
    (o : FlattenParamsWrapper) : FlattenParamsWrapper :=
  {| _fpw_module := _fpw_module o;
     _parameters := _parameters o;
     _state_dict_hooks := _state_dict_hooks o;
     _load_state_dict_pre_hooks := _load_state_dict_pre_hooks o ++ [h];
     _flat_param_handle := _flat_param_handle o;
     _use_orig_params := _use_orig_params o |}.

(** [assert a is b] *)
Definition assert_is (a b : Value) : M unit :=
  if decide (a = b) then ret tt else raise (AssertionError "").

Definition __init__ (module : Module) (params : list nat) (device : string)
    (config : list string) (use_orig_params : bool) : M unit :=
  set_self (fun _ => nn_Module___init__) ;;;
  set_self (set_fpw_module module) ;;;
  set_self (_register_state_dict_hook post_state_dict_hook) ;;;
  set_self (_register_load_state_dict_pre_hook pre_load_state_dict_hook) ;;;
  if Nat.eqb (length params) 0 then ret tt
  else
    set_self (set_flat_param_handle
                (FlatParamHandle_new params module device config
                   use_orig_params)) ;;;
    (if negb use_orig_params then _register_flat_param else ret tt) ;;;
    set_self (set_use_orig_params use_orig_params) ;;;
    (a <- self_getattr FPW_MODULE ;; b <- self_getattr "_fpw_module" ;;
     assert_is a b) ;;;
    (a <- flat_param ;; b <- flat_param ;; assert_is a b).

(** [FlattenParamsWrapper(module, params, device, config, use_orig_params)]
    in a world where the views are [v]. *)
Definition FlattenParamsWrapper_new (module : Module) (params : list nat)
    (device : string) (config : list string) (use_orig_params : bool)
    (v : Views) : result unit * World :=
  __init__ module params device config use_orig_params
    {| self := nn_Module___init__; views := v; trace := [] |}.

(** The two halves of [unflatten_as_params] around its [yield], for a
    wrapper that has a flattened parameter: what runs on entry, and what
    runs on exit whether or not the block raised. *)
Definition unflatten_enter : M unit :=
  _deregister_flat_param ;;;
  hv <- self_getattr "_flat_param_handle" ;;
  h <- lift (as_handle hv) ;;
  FlatParamHandle__use_unsharded_views h true.

Definition unflatten_exit : M unit :=
  try_finally
    (hv <- self_getattr "_flat_param_handle" ;;
     h <- lift (as_handle hv) ;;
     FlatParamHandle__use_unsharded_views h false)
    (hv <- handle ;;
     uop <- lift (value_getattr hv "_use_orig_params") ;;
     if negb (truthy uop) then _register_flat_param else ret tt).

(** ** The life of a wrapper *)

(** The worlds that a wrapper goes through after its construction: calls of
    [forward], completed [unflatten_as_params] scopes whose block is the
    caller's code, reads of the properties and of attributes, and whatever
    the collaborators do to the views in between. *)
Inductive reachable (w0 : World) : World -> Prop :=
| reach_new : reachable w0 w0
| reach_forward w inputs kwinputs r w' :
    reachable w0 w -> forward inputs kwinputs w = (r, w') -> reachable w0 w'
| reach_scope w (body : Views -> result unit * Views) r w' :
    reachable w0 w ->
    unflatten_as_params (lift_views body) w = (r, w') -> reachable w0 w'
| reach_has_params w r w' :
    reachable w0 w -> has_params w = (r, w') -> reachable w0 w'
| reach_flat_param w r w' :
    reachable w0 w -> flat_param w = (r, w') -> reachable w0 w'
| reach_handle w r w' :
    reachable w0 w -> handle w = (r, w') -> reachable w0 w'
| reach_getitem w key r w' :
    reachable w0 w -> __getitem__ key w = (r, w') -> reachable w0 w'
| reach_views w (f : Views -> Views) :
    reachable w0 w ->
    reachable w0 {| self := self w; views := f (views w); trace := trace w |}.

(** ** Vocabulary for the properties of the wrapper *)

(** The wrapper after a completed scope: the slot was de-registered on
    entry and, unless the handle uses the original parameters, registered
    again on exit. *)
Definition after_scope (h : FlatParamHandle) (o : FlattenParamsWrapper)
  : FlattenParamsWrapper :=
  if handle_use_orig_params h
  then set_parameters (delete "flat_param") o
  else set_parameters (insert "flat_param" (VTensor (handle_flat_param h)))
         (set_parameters (delete "flat_param") o).

(** The wrapper that [__init__] builds when it is given parameters. *)
Definition constructed (module : Module) (params : list nat) (device : string)
    (config : list string) (use_orig_params : bool) : FlattenParamsWrapper :=
  {| _fpw_module := Some module;
     _parameters :=
       if use_orig_params then ∅
       else <["flat_param" := VTensor (FlatParameter params)]> ∅;
     _state_dict_hooks := [post_state_dict_hook];
     _load_state_dict_pre_hooks := [pre_load_state_dict_hook];
     _flat_param_handle :=
       Some (FlatParamHandle_new params module device config use_orig_params);
     _use_orig_params := Some use_orig_params |}.

(** The wrapper that [__init__] builds when the parameter list is empty. *)
Definition constructed_empty (module : Module) : FlattenParamsWrapper :=
  {| _fpw_module := Some module;
     _parameters := ∅;
     _state_dict_hooks := [post_state_dict_hook];
     _load_state_dict_pre_hooks := [pre_load_state_dict_hook];
     _flat_param_handle := None;
     _use_orig_params := None |}.

(** The computation does not change the world at all. *)
Definition pure_read {A} (m : M A) : Prop := forall w, (m w).2 = w.

(** The computation does not change the wrapper object. *)
Definition keeps_self {A} (m : M A) : Prop := forall w, self (m w).2 = self w.

(** ** A wrapper around a wrapper *)

(** A plain module without attributes of its own. *)
Definition plain_module : Module :=
  {| module_name := "lin";
     module_getattr := fun name => Raise (AttributeError name);
     module_getitem := fun _ => Raise (Exception "TypeError" "not subscriptable");
     module_call := fun _ _ v => (Ok VNone, v) |}.

(** A [FlattenParamsWrapper] built over two parameters of [plain_module],
    seen as a module: its attribute lookup is [getattr] on the wrapper. *)
Definition inner_wrapper : FlattenParamsWrapper :=
  constructed plain_module [1; 2] "cpu" [] false.

Definition inner_module : Module :=
  {| module_name := "inner";
     module_getattr := getattr inner_wrapper;
     module_getitem := fun _ => Raise (Exception "TypeError" "not subscriptable");
     module_call := fun _ _ v => (Ok VNone, v) |}.

(** [FlattenParamsWrapper(inner_module, [], "cpu", config, False)]: a
    wrapper that is given no parameters. *)
Definition outer_world : World :=
  (FlattenParamsWrapper_new inner_module [] "cpu" [] false (fun _ => false)).2.

(** The same nesting, the inner wrapper built with
    [use_orig_params=True]:
    [FlattenParamsWrapper(inner_module_orig, [], "cpu", config, False)]. *)
Definition inner_wrapper_orig : FlattenParamsWrapper :=
  constructed plain_module [1; 2] "cpu" [] true.

Definition inner_module_orig : Module :=
  {| module_name := "inner";
     module_getattr := getattr inner_wrapper_orig;
     module_getitem := fun _ => Raise (Exception "TypeError" "not subscriptable");
     module_call := fun _ _ v => (Ok VNone, v) |}.

Definition outer_world_orig : World :=
  (FlattenParamsWrapper_new inner_module_orig [] "cpu" [] false
     (fun _ => false)).2.

(** ** Worlds to run the wrapper in *)

(** A module with one attribute, [weight]. *)
Definition linear_module : Module :=
  {| module_name := "linear";
     module_getattr := fun name =>
       if String.eqb name "weight" then Ok (VTensor (OrigParameter 1))
       else Raise (AttributeError name);
     module_getitem := fun _ => Raise (Exception "TypeError" "not subscriptable");
     module_call := fun inputs _ v => (Ok (VObject (length inputs)), v) |}.

Definition no_views : Views := fun _ => false.

(** [FlattenParamsWrapper(linear_module, [p1, p2], "cpu", config, False)] *)
Definition flat_world : World :=
  (FlattenParamsWrapper_new linear_module [1; 2] "cpu" [] false no_views).2.

(** The same with [use_orig_params=True]. *)
Definition orig_world : World :=
  (FlattenParamsWrapper_new linear_module [1; 2] "cpu" [] true no_views).2.

(** [FlattenParamsWrapper(linear_module, [], "cpu", config, False)] *)
Definition bare_world : World :=
  (FlattenParamsWrapper_new linear_module [] "cpu" [] false no_views).2.

(** A block that raises. *)
Definition failing_block : Views -> result unit * Views :=
  fun v => (Raise (Exception "RuntimeError" "boom"), v).

(** ** Vocabulary for the properties of the remapper *)

(** [k.startswith(old)] as a proposition. *)
Definition has_prefix (old k : string) : Prop := startswith k old = true.

Global Instance has_prefix_dec old k : Decision (has_prefix old k).
Proof. unfold has_prefix. apply _. Defined.

(** The name a key gets when [old] is replaced by [new]. *)
Definition renamed (old new k : string) : string :=
  new +:+ string_drop (String.length old) k.

Definition rename_entry {V} (old new : string) (kv : string * V) : string * V :=
  (renamed old new kv.1, kv.2).

(** The dict after a collision-free replacement: the keys that do not
    begin with [old] stay in place, the others follow under their new
    names, in their old order. *)
Definition moved {V} (old new : string) (d : dict V) : dict V :=
  filter (λ kv, ¬ has_prefix old kv.1) d
  ++ (rename_entry old new <$> filter (λ kv, has_prefix old kv.1) d).

(** The keys are pairwise distinct, and so are the new names, which are not
    keys already. *)
Definition collision_free {V} (old new : string) (d : dict V) : Prop :=
  NoDup (keys d ++ (renamed old new <$> filter (has_prefix old) (keys d))).

(** The same replacement seen key by key. *)
Definition rename_key (old new k : string) : string :=
  if startswith k old then renamed old new k else k.

Definition rename_keys {V} (old new : string) (d : dict V) : dict V :=
  (λ kv, (rename_key old new kv.1, kv.2)) <$> d.

(** The final name of a key under the import hook as the specification
    words it: every key under the prefix is pushed below [_fpw_module], and
    every pushed key whose last dotted segment begins with [flat_param]
    comes back up.  To be compared with what [_pre_load_state_dict_hook]
    does. *)
Definition import_key_as_specified (prefix k : string) : string :=
  if startswith k prefix then
    let pushed :=
      prefix +:+ "_fpw_module." +:+ string_drop (String.length prefix) k in
    if startswith (last_part pushed) "flat_param"
    then prefix +:+ last_part pushed
    else pushed
  else k.

(** ** The two name spaces of a state dict *)

(** A key as the wrapper with prefix [P] and its wrapped module write it:
    outside [P]; or a [flat_param] slot directly under [P]; or a field of
    the wrapped module under [P + "_fpw_module."] whose own name begins
    neither with [flat_param] nor with [_fpw_module.]. *)
Definition internal_key (prefix k : string) : bool :=
  if startswith k prefix then
    let s := string_drop (String.length prefix) k in
    (startswith s "flat_param" && nodot s)
    || (startswith s "_fpw_module."
        && negb (startswith (string_drop 12 s) "flat_param")
        && negb (startswith (string_drop 12 s) "_fpw_module."))
  else true.

(** A key as users of the state dict see it: outside [P]; or a [flat_param]
    slot directly under [P]; or a field under [P] whose name begins neither
    with [flat_param] nor with [_fpw_module.]. *)
Definition external_key (prefix k : string) : bool :=
  if startswith k prefix then
    let s := string_drop (String.length prefix) k in
    if startswith s "flat_param" then nodot s
    else negb (startswith s "_fpw_module.")
  else true.

(** * Properties *)

(** ** Facts about the string operations *)

Lemma string_app_nil (b : string) : "" +:+ b = b.
Proof. reflexivity. Qed.

Lemma string_app_cons (x : ascii) (a b : string) :
  String x a +:+ b = String x (a +:+ b).
Proof. reflexivity. Qed.

(** [String.append] does not unfold under [simpl]; push it inwards by hand. *)
Ltac sapp := rewrite ?string_app_nil, ?string_app_cons in *; simpl in *.

Lemma string_app_assoc (a b c : string) : (a +:+ b) +:+ c = a +:+ b +:+ c.
Proof. induction a as [|x a IH]; sapp; [reflexivity | now rewrite IH]. Qed.

Lemma string_app_inj_l (p s1 s2 : string) : p +:+ s1 = p +:+ s2 -> s1 = s2.
Proof.
  induction p as [|x p IH]; intros H; sapp; [exact H|].
  injection H as H. now apply IH.
Qed.

Lemma string_length_app (a b : string) :
  String.length (a +:+ b) = String.length a + String.length b.
Proof. induction a as [|x a IH]; sapp; [reflexivity | now rewrite IH]. Qed.

Lemma string_app_inj_r (a b r : string) : a +:+ r = b +:+ r -> a = b.
Proof.
  revert b. induction a as [|x a IH]; intros [|y b] H.
  - reflexivity.
  - apply (f_equal String.length) in H. sapp.
    rewrite string_length_app in H. lia.
  - apply (f_equal String.length) in H. sapp.
    rewrite string_length_app in H. lia.
  - sapp. injection H as -> H. f_equal. now apply IH.
Qed.

Lemma startswith_app (p s : string) : startswith (p +:+ s) p = true.
Proof.
  induction p as [|x p IH]; sapp; [reflexivity|].
  now rewrite Ascii.eqb_refl, IH.
Qed.

Lemma startswith_split (s p : string) :
  startswith s p = true -> s = p +:+ string_drop (String.length p) s.
Proof.
  revert s. induction p as [|x p IH]; intros s H; sapp; [reflexivity|].
  destruct s as [|y s]; [discriminate|].
  apply andb_prop in H as [Hc Hs]. apply Ascii.eqb_eq in Hc as ->.
  f_equal. now apply IH.
Qed.

Lemma string_drop_app (p s : string) : string_drop (String.length p) (p +:+ s) = s.
Proof. induction p as [|x p IH]; sapp; [reflexivity | exact IH]. Qed.

Lemma startswith_cancel (p s q : string) :
  startswith (p +:+ s) (p +:+ q) = startswith s q.
Proof.
  induction p as [|x p IH]; sapp; [reflexivity|].
  now rewrite Ascii.eqb_refl, IH.
Qed.

Lemma startswith_app_r (s p q : string) :
  startswith s (p +:+ q) = true -> startswith s p = true.
Proof.
  revert s. induction p as [|x p IH]; intros s H; sapp; [reflexivity|].
  destruct s as [|y s]; [discriminate|].
  apply andb_prop in H as [Hc Hs]. rewrite Hc. simpl. now apply IH.
Qed.

Lemma startswith_trans (s p q : string) :
  startswith s p = true -> startswith p q = true -> startswith s q = true.
Proof.
  intros Hs Hp. apply startswith_split in Hp. rewrite Hp in Hs.
  now apply startswith_app_r in Hs.
Qed.

Lemma split_dot_nonempty (s : string) : split_dot s <> [].
Proof.
  induction s as [|c s IH]; simpl; [discriminate|].
  destruct (Ascii.eqb c "."); [discriminate|].
  destruct (split_dot s); discriminate.
Qed.

Lemma split_dot_app (x s : string) :
  split_dot (x +:+ String "." s) = (split_dot x ++ split_dot s)%list.
Proof.
  induction x as [|c x IH]; sapp; [reflexivity|].
  rewrite IH. destruct (Ascii.eqb c "."); [reflexivity|].
  pose proof (split_dot_nonempty x) as Hx.
  destruct (split_dot x) as [|seg segs]; [contradiction | reflexivity].
Qed.

Lemma split_dot_nodot (s : string) : nodot s = true -> split_dot s = [s].
Proof.
  induction s as [|c s IH]; simpl; intros H; [reflexivity|].
  apply andb_prop in H as [Hc Hs].
  destruct (Ascii.eqb c "."); [discriminate|]. now rewrite IH.
Qed.

Lemma split_dot_segments (s : string) : Forall (fun seg => nodot seg = true) (split_dot s).
Proof.
  induction s as [|c s IH]; simpl.
  - repeat constructor.
  - destruct (Ascii.eqb c ".") eqn:Hc.
    + constructor; [reflexivity | exact IH].
    + destruct (split_dot s) as [|seg segs]; [repeat constructor; simpl; now rewrite Hc|].
      inversion IH as [|? ? Hseg Hsegs]; subst.
      constructor; [simpl; now rewrite Hc, Hseg | exact Hsegs].
Qed.

Lemma last_app_nonempty {A} (l1 l2 : list A) (d : A) :
  l2 <> [] -> List.last (l1 ++ l2)%list d = List.last l2 d.
Proof.
  intros H. induction l1 as [|x l1 IH]; simpl; [reflexivity|].
  destruct (l1 ++ l2)%list eqn:E; [|exact IH].
  apply app_eq_nil in E as [_ ->]. contradiction.
Qed.

Lemma last_Forall {A} (P : A -> Prop) (l : list A) (d : A) :
  l <> [] -> Forall P l -> P (List.last l d).
Proof.
  induction l as [|x l IH]; intros Hne HF; [contradiction|].
  inversion HF as [|? ? Hx Hl]; subst. simpl.
  destruct l as [|y l]; [exact Hx|]. apply IH; [discriminate | exact Hl].
Qed.

(** The last dotted segment contains no dot. *)
Lemma last_part_nodot (s : string) : nodot (last_part s) = true.
Proof.
  unfold last_part.
  apply (last_Forall (fun seg => nodot seg = true));
    [apply split_dot_nonempty | apply split_dot_segments].
Qed.

(** The last dotted segment of [x.s] is [s] when [s] has no dot. *)
Lemma last_part_app (x s : string) :
  nodot s = true -> last_part (x +:+ String "." s) = s.
Proof.
  intros H. unfold last_part.
  rewrite split_dot_app, last_app_nonempty by apply split_dot_nonempty.
  now rewrite split_dot_nodot.
Qed.

(** ** Facts about dicts *)

Section dict_facts.
Context {V : Type}.
Implicit Types (d : dict V) (k : string) (v : V).

Lemma dict_get_None k d : k ∉ keys d -> dict_get k d = None.
Proof.
  induction d as [|[k' v'] d IH]; simpl; intros H; [reflexivity|].
  unfold keys in *. rewrite ?fmap_cons, not_elem_of_cons in H. destruct H as [Hne H].
  destruct (String.eqb_spec k' k) as [->|_]; [contradiction|]. now apply IH.
Qed.

Lemma dict_get_is_Some k d : k ∈ keys d -> exists v, dict_get k d = Some v.
Proof.
  induction d as [|[k' v'] d IH]; simpl; intros H.
  - unfold keys in H. simpl in H. now apply elem_of_nil in H.
  - destruct (String.eqb_spec k' k) as [->|Hne]; [now exists v'|].
    unfold keys in *. rewrite ?fmap_cons, elem_of_cons in H.
    destruct H as [->|H]; [contradiction | now apply IH].
Qed.

Lemma dict_get_middle k v (d1 d2 : dict V) :
  k ∉ keys d1 -> dict_get k (d1 ++ (k, v) :: d2) = Some v.
Proof.
  induction d1 as [|[k' v'] d1 IH]; simpl; intros H.
  - now rewrite String.eqb_refl.
  - unfold keys in *. rewrite ?fmap_cons, not_elem_of_cons in H. destruct H as [Hne H].
    destruct (String.eqb_spec k' k) as [->|_]; [contradiction|]. now apply IH.
Qed.

Lemma dict_set_fresh k v d : k ∉ keys d -> dict_set k v d = d ++ [(k, v)].
Proof.
  induction d as [|[k' v'] d IH]; simpl; intros H; [reflexivity|].
  unfold keys in *. rewrite ?fmap_cons, not_elem_of_cons in H. destruct H as [Hne H].
  destruct (String.eqb_spec k' k) as [->|_]; [contradiction|]. now rewrite IH.
Qed.

Lemma dict_del_fresh k d : k ∉ keys d -> dict_del k d = d.
Proof.
  induction d as [|[k' v'] d IH]; simpl; intros H; [reflexivity|].
  unfold keys in *. rewrite ?fmap_cons, not_elem_of_cons in H. destruct H as [Hne H].
  destruct (String.eqb_spec k' k) as [->|_]; [contradiction|]. now rewrite IH.
Qed.

Lemma dict_del_app k (d1 d2 : dict V) :
  dict_del k (d1 ++ d2) = dict_del k d1 ++ dict_del k d2.
Proof.
  induction d1 as [|[k' v'] d1 IH]; simpl; [reflexivity|].
  destruct (String.eqb k' k); [exact IH | now rewrite IH].
Qed.

Lemma dict_del_middle k v (d1 d2 : dict V) :
  k ∉ keys d1 -> k ∉ keys d2 -> dict_del k (d1 ++ (k, v) :: d2) = d1 ++ d2.
Proof.
  intros H1 H2. rewrite dict_del_app. simpl. rewrite String.eqb_refl.
  now rewrite !dict_del_fresh.
Qed.

Lemma keys_dict_set k v d :
  keys (dict_set k v d) = if decide (k ∈ keys d) then keys d else keys d ++ [k].
Proof.
  induction d as [|[k' v'] d IH]; simpl; [reflexivity|].
  destruct (String.eqb_spec k' k) as [->|Hne].
  - rewrite decide_True by apply list_elem_of_here. reflexivity.
  - change (keys ((k', v') :: dict_set k v d)) with (k' :: keys (dict_set k v d)).
    rewrite IH. destruct (decide (k ∈ keys d)) as [Hin|Hnin].
    + rewrite decide_True by now apply list_elem_of_further. reflexivity.
    + rewrite decide_False; [reflexivity|].
      rewrite elem_of_cons. intros [->|?]; contradiction.
Qed.

Lemma elem_of_keys_dict_del x k d :
  x ∈ keys (dict_del k d) <-> x ∈ keys d /\ x <> k.
Proof.
  induction d as [|[k' v'] d IH]; simpl.
  - unfold keys. simpl. rewrite elem_of_nil. tauto.
  - unfold keys in *. destruct (String.eqb_spec k' k) as [->|Hne].
    + rewrite IH, ?fmap_cons, elem_of_cons. simpl. intuition congruence.
    + rewrite ?fmap_cons, !elem_of_cons, IH. simpl. intuition congruence.
Qed.

Lemma dict_wf_del k d : dict_wf d -> dict_wf (dict_del k d).
Proof.
  unfold dict_wf. induction d as [|[k' v'] d IH]; simpl; intros H; [exact H|].
  unfold keys in *. rewrite ?fmap_cons in H. apply NoDup_cons in H as [Hnin H].
  destruct (String.eqb k' k); [now apply IH|].
  rewrite ?fmap_cons. apply NoDup_cons. split; [|now apply IH].
  intros Hin. apply (elem_of_keys_dict_del k' k d) in Hin as [Hin _]. contradiction.
Qed.

Lemma dict_wf_set k v d : dict_wf d -> dict_wf (dict_set k v d).
Proof.
  unfold dict_wf. rewrite keys_dict_set. intros H.
  case_decide as Hin; [exact H|].
  apply NoDup_app. repeat split; [exact H | | apply NoDup_singleton].
  intros x Hx Hx'. apply list_elem_of_singleton in Hx' as ->. contradiction.
Qed.

Lemma elem_of_keys_dict_set x k v d :
  x ∈ keys d -> x ∈ keys (dict_set k v d).
Proof.
  rewrite keys_dict_set. case_decide; [tauto|].
  intros Hx. apply elem_of_app. now left.
Qed.

End dict_facts.

(** ** What [_replace_by_prefix] does *)

Lemma NoDup_submseteq_inv {A} (l k : list A) : l ⊆+ k -> NoDup k -> NoDup l.
Proof.
  intros Hsub Hk. apply submseteq_Permutation in Hsub as [k' Hk'].
  rewrite Hk' in Hk. now apply NoDup_app in Hk as [? _].
Qed.

Section replace_facts.
Context {V : Type}.
Implicit Types (d : dict V) (k old new : string) (v : V).

Lemma dict_get_Some_elem k v d : dict_get k d = Some v -> k ∈ keys d.
Proof.
  intros H. destruct (decide (k ∈ keys d)) as [Hin|Hnin]; [exact Hin|].
  rewrite dict_get_None in H by exact Hnin. discriminate.
Qed.

Lemma move_key_skip old new k d :
  startswith k old = false -> move_key old new k d = (Ok tt, d).
Proof. intros H. unfold move_key. now rewrite H. Qed.

Lemma move_key_eval old new k v d :
  startswith k old = true -> dict_get k d = Some v ->
  move_key old new k d = (Ok tt, dict_del k (dict_set (renamed old new k) v d)).
Proof.
  intros H Hget.
  destruct (dict_get_is_Some k (dict_set (renamed old new k) v d)) as [v' Hv'].
  { apply elem_of_keys_dict_set. eapply dict_get_Some_elem, Hget. }
  unfold move_key, bind, dict_getitem, dict_setitem, modify, dict_delitem.
  rewrite H. simpl. rewrite Hget. fold (renamed old new k). now rewrite Hv'.
Qed.

(** The walk over the snapshot never fails on a well-formed dict and leaves
    a well-formed dict, whatever collisions happen on the way. *)
Lemma move_keys_total old new (ks : list string) d :
  NoDup ks -> (forall k, k ∈ ks -> k ∈ keys d) -> dict_wf d ->
  exists d', for_each ks (move_key old new) d = (Ok tt, d') /\ dict_wf d'.
Proof.
  revert d. induction ks as [|k ks IH]; intros d Hnd Hin Hwf.
  - exists d. split; [reflexivity | exact Hwf].
  - apply NoDup_cons in Hnd as [Hk Hnd]. simpl. unfold bind.
    destruct (startswith k old) eqn:Hp.
    + destruct (dict_get_is_Some k d) as [v Hv]; [apply Hin, list_elem_of_here|].
      rewrite (move_key_eval _ _ _ v) by assumption.
      apply IH; [exact Hnd | | now apply dict_wf_del, dict_wf_set].
      intros x Hx. apply elem_of_keys_dict_del. split.
      * apply elem_of_keys_dict_set, Hin. now apply list_elem_of_further.
      * intros ->. contradiction.
    + rewrite move_key_skip by assumption.
      apply IH; [exact Hnd | | exact Hwf].
      intros x Hx. apply Hin. now apply list_elem_of_further.
Qed.

Lemma _replace_by_prefix_total old new d :
  old <> new -> dict_wf d ->
  exists d', _replace_by_prefix old new d = (Ok tt, d') /\ dict_wf d'.
Proof.
  intros Hne Hwf. unfold _replace_by_prefix.
  destruct (String.eqb_spec old new) as [?|_]; [contradiction|].
  unfold bind, dict_keys. now apply move_keys_total.
Qed.

Lemma keys_app (d1 d2 : dict V) : keys (d1 ++ d2) = keys d1 ++ keys d2.
Proof. apply fmap_app. Qed.

Lemma move_keys_exact old new (post front back : dict V) :
  NoDup (keys front ++ keys post ++ keys back
         ++ (renamed old new <$> filter (has_prefix old) (keys post))) ->
  for_each (keys post) (move_key old new) (front ++ post ++ back)
  = (Ok tt,
     front ++ filter (λ kv, ¬ has_prefix old kv.1) post ++ back
     ++ (rename_entry old new <$> filter (λ kv, has_prefix old kv.1) post)).
Proof.
  revert front back. induction post as [|[k v] post IH]; intros front back Hnd.
  - simpl. now rewrite app_nil_r.
  - change (keys ((k, v) :: post)) with (k :: keys post) in *.
    simpl for_each. unfold bind.
    destruct (startswith k old) eqn:Hp.
    + rewrite filter_cons_True in Hnd by exact Hp. rewrite fmap_cons in Hnd.
      set (nk := renamed old new k) in *.
      set (T := renamed old new <$> filter (has_prefix old) (keys post)) in *.
      assert (NoDup (k :: nk :: keys front ++ keys post ++ keys back ++ T)) as Hnd'.
      { eapply NoDup_Permutation_proper; [|exact Hnd]. solve_Permutation. }
      apply NoDup_cons in Hnd' as [Hk Hnd'].
      pose proof (NoDup_cons_1_1 _ _ Hnd') as Hnk.
      rewrite not_elem_of_cons, !not_elem_of_app in Hk.
      destruct Hk as (Hne & Hk1 & Hk2 & Hk3 & _).
      rewrite !not_elem_of_app in Hnk. destruct Hnk as (Hn1 & Hn2 & Hn3 & _).
      change (front ++ ((k, v) :: post) ++ back)
        with (front ++ (k, v) :: post ++ back).
      rewrite (move_key_eval _ _ _ v);
        [|exact Hp | now apply dict_get_middle].
      fold nk. rewrite dict_set_fresh.
      2:{ rewrite keys_app. change (keys ((k, v) :: post ++ back))
            with (k :: keys (post ++ back)).
          rewrite keys_app, not_elem_of_app, not_elem_of_cons, not_elem_of_app.
          intuition congruence. }
      rewrite <- app_assoc. rewrite <- app_comm_cons.
      rewrite dict_del_middle.
      2:{ exact Hk1. }
      2:{ rewrite !keys_app, !not_elem_of_app. repeat split; try assumption.
          unfold keys. simpl. rewrite list_elem_of_singleton. congruence. }
      replace (front ++ (post ++ back) ++ [(nk, v)])
        with (front ++ post ++ (back ++ [(nk, v)]))
        by now rewrite !app_assoc.
      rewrite IH.
      2:{ rewrite keys_app. fold T. eapply NoDup_submseteq_inv; [|exact Hnd'].
          change (keys [(nk, v)]) with [nk]. solve_submseteq. }
      rewrite (filter_cons_False (λ kv : string * V, ¬ has_prefix old kv.1))
        by (simpl; tauto).
      rewrite (filter_cons_True (λ kv : string * V, has_prefix old kv.1))
        by exact Hp.
      rewrite fmap_cons. f_equal. now rewrite <- !app_assoc.
    + rewrite move_key_skip by exact Hp.
      assert (¬ has_prefix old k) as Hnp by (unfold has_prefix; congruence).
      rewrite filter_cons_False in Hnd by exact Hnp.
      replace (front ++ (k, v) :: post ++ back)
        with ((front ++ [(k, v)]) ++ post ++ back)
        by now rewrite <- app_assoc.
      rewrite IH.
      2:{ rewrite keys_app. change (keys [(k, v)]) with [k].
          eapply NoDup_Permutation_proper; [|exact Hnd]. solve_Permutation. }
      rewrite (filter_cons_True (λ kv : string * V, ¬ has_prefix old kv.1))
        by exact Hnp.
      rewrite (filter_cons_False (λ kv : string * V, has_prefix old kv.1))
        by exact Hnp.
      f_equal. now rewrite <- app_assoc.
Qed.

Lemma keys_filter (P : string -> Prop) `{forall k, Decision (P k)} d :
  keys (filter (λ kv, P kv.1) d) = filter P (keys d).
Proof.
  induction d as [|[k v] d IH]; [reflexivity|].
  change (keys ((k, v) :: d)) with (k :: keys d).
  destruct (decide (P k)) as [Hk|Hk].
  - rewrite (filter_cons_True (λ kv : string * V, P kv.1)) by exact Hk.
    rewrite (filter_cons_True P) by exact Hk.
    change (keys ((k, v) :: filter (λ kv, P kv.1) d))
      with (k :: keys (filter (λ kv, P kv.1) d)).
    f_equal. exact IH.
  - rewrite (filter_cons_False (λ kv : string * V, P kv.1)) by exact Hk.
    rewrite (filter_cons_False P) by exact Hk. exact IH.
Qed.

(** Without collisions the replacement succeeds and yields [moved]. *)
Lemma _replace_by_prefix_exact old new d :
  old <> new -> collision_free old new d ->
  _replace_by_prefix old new d = (Ok tt, moved old new d).
Proof.
  intros Hne Hcf. unfold _replace_by_prefix.
  destruct (String.eqb_spec old new) as [?|_]; [contradiction|].
  unfold bind, dict_keys.
  pose proof (move_keys_exact old new d [] []) as H.
  simpl in H. rewrite !app_nil_r in H. apply H. exact Hcf.
Qed.

Lemma keys_fmap_rename old new d :
  keys (rename_entry old new <$> d) = renamed old new <$> keys d.
Proof.
  unfold keys. rewrite <- !list_fmap_compose. reflexivity.
Qed.

Lemma keys_moved old new d :
  keys (moved old new d)
  = filter (λ k, ¬ has_prefix old k) (keys d)
    ++ (renamed old new <$> filter (has_prefix old) (keys d)).
Proof.
  unfold moved. rewrite keys_app, keys_fmap_rename.
  f_equal; [|f_equal].
  - exact (keys_filter (λ k, ¬ has_prefix old k) (H := λ k, not_dec _) d).
  - exact (keys_filter (has_prefix old) (H := has_prefix_dec old) d).
Qed.

Lemma moved_wf old new d : collision_free old new d -> dict_wf (moved old new d).
Proof.
  unfold collision_free, dict_wf. rewrite keys_moved. intros H.
  apply NoDup_app in H as (Hk & Hdisj & Ht).
  apply NoDup_app. repeat split; [now apply NoDup_filter | | exact Ht].
  intros x Hx. apply list_elem_of_filter in Hx as [_ Hx]. now apply Hdisj.
Qed.

Lemma collision_free_wf old new d : collision_free old new d -> dict_wf d.
Proof. unfold collision_free. intros H. now apply NoDup_app in H as [? _]. Qed.


Lemma moved_Permutation old new d : moved old new d ≡ₚ rename_keys old new d.
Proof.
  unfold moved, rename_keys. induction d as [|[k v] d IH]; [reflexivity|].
  rewrite fmap_cons. unfold rename_key at 1. simpl.
  destruct (startswith k old) eqn:Hp.
  - rewrite (filter_cons_False (λ kv : string * V, ¬ has_prefix old kv.1))
      by (simpl; unfold has_prefix; tauto).
    rewrite (filter_cons_True (λ kv : string * V, has_prefix old kv.1))
      by exact Hp.
    rewrite fmap_cons, <- Permutation_middle. now rewrite IH.
  - assert (¬ has_prefix old k) as Hnp by (unfold has_prefix; congruence).
    rewrite (filter_cons_True (λ kv : string * V, ¬ has_prefix old kv.1))
      by exact Hnp.
    rewrite (filter_cons_False (λ kv : string * V, has_prefix old kv.1))
      by exact Hnp.
    simpl. now rewrite IH.
Qed.


End replace_facts.

(** ** The export hook *)

Lemma string_app_neq_self (p s : string) : s <> "" -> p +:+ s <> p.
Proof.
  intros Hs H. apply (f_equal String.length) in H.
  rewrite string_length_app in H. destruct s; [contradiction | simpl in H; lia].
Qed.


(** ** The import hook: format errors *)

Lemma nodot_app (a b : string) : nodot (a +:+ b) = nodot a && nodot b.
Proof.
  induction a as [|c a IH]; sapp; [reflexivity|].
  rewrite IH. now rewrite andb_assoc.
Qed.

(** A key under [P + "_fpw_module.flat_param"] is never [P] followed by its
    own last segment, so the inner replacement is never refused. *)
Lemma flat_key_neq_target (prefix k : string) :
  startswith k (prefix +:+ "_fpw_module.flat_param") = true ->
  k <> prefix +:+ last_part k.
Proof.
  intros Hp Heq. apply startswith_split in Hp.
  rewrite string_app_assoc in Hp. rewrite Hp in Heq at 1.
  apply string_app_inj_l in Heq.
  pose proof (last_part_nodot k) as Hnd. rewrite <- Heq in Hnd.
  rewrite nodot_app in Hnd. discriminate.
Qed.

Section import_errors.
Context {V : Type}.
Implicit Types (d : dict V) (k prefix : string).

Lemma lift_flat_loop_raises prefix (ks : list string) d :
  dict_wf d ->
  (exists k, k ∈ ks /\
     startswith k (prefix +:+ "_fpw_module.flat_param") = true /\
     startswith (last_part k) "flat_param" = false) ->
  exists msg d',
    for_each ks (lift_flat_param prefix (prefix +:+ "_fpw_module.flat_param")) d
    = (Raise (AssertionError msg), d').
Proof.
  revert d. induction ks as [|k0 ks IH]; intros d Hwf (k & Hin & Hk & Hlast).
  - now apply elem_of_nil in Hin.
  - simpl. unfold bind, lift_flat_param at 1.
    change FLAT_PARAM with "flat_param".
    destruct (startswith k0 (prefix +:+ "_fpw_module.flat_param")) eqn:Hk0.
    + destruct (startswith (last_part k0) "flat_param") eqn:Hl0.
      * destruct (_replace_by_prefix_total k0 (prefix +:+ last_part k0) d)
          as (d1 & Hd1 & Hwf1); [now apply flat_key_neq_target | exact Hwf|].
        rewrite Hd1. apply IH; [exact Hwf1|].
        exists k. repeat split; try assumption.
        apply elem_of_cons in Hin as [->|Hin]; [congruence | exact Hin].
      * unfold raise. eauto.
    + apply IH; [exact Hwf|]. exists k. repeat split; try assumption.
      apply elem_of_cons in Hin as [->|Hin]; [congruence | exact Hin].
Qed.

End import_errors.

(** C7: when, after the push-down of every key under [P] to
    [P + "_fpw_module."], some key begins with [P + "_fpw_module.flat_param"]
    while its last dotted segment does not begin with [flat_param], the
    import hook raises the assertion error to its caller. *)
Theorem pre_load_state_dict_hook_format_error {V} (prefix : string)
    (d d1 : dict V) (k : string) :
  dict_wf d ->
  _replace_by_prefix prefix (prefix +:+ "_fpw_module.") d = (Ok tt, d1) ->
  k ∈ keys d1 ->
  startswith k (prefix +:+ "_fpw_module.flat_param") = true ->
  startswith (last_part k) "flat_param" = false ->
  exists msg d',
    _pre_load_state_dict_hook prefix d = (Raise (AssertionError msg), d').
Proof.
  intros Hwf Hd1 Hin Hk Hlast.
  assert (dict_wf d1) as Hwf1.
  { destruct (_replace_by_prefix_total prefix (prefix +:+ "_fpw_module.") d)
      as (d2 & Hd2 & Hwf2); [|exact Hwf|].
    - intros Heq. symmetry in Heq. revert Heq.
      apply string_app_neq_self. discriminate.
    - rewrite Hd1 in Hd2. now injection Hd2 as ->. }
  unfold _pre_load_state_dict_hook, bind at 1.
  change (prefix +:+ FPW_MODULE +:+ ".") with (prefix +:+ "_fpw_module.").
  rewrite Hd1. unfold bind, dict_keys.
  change (prefix +:+ FPW_MODULE +:+ "." +:+ FLAT_PARAM)
    with (prefix +:+ "_fpw_module.flat_param").
  apply (lift_flat_loop_raises prefix (keys d1) d1 Hwf1).
  exists k. auto.
Qed.

(** ** The import hook: the success path *)

(** When every element, renamed by [g], brings no more names than it did
    before, the renamed list is collision-free if the original was. *)
Lemma contributions_submseteq {A} (g f h : A -> A) (P Q : A -> Prop)
    `{forall x, Decision (P x)} `{forall x, Decision (Q x)} (K : list A) :
  (forall x, x ∈ K ->
     g x :: (h <$> filter Q [g x]) ⊆+ x :: (f <$> filter P [x])) ->
  (g <$> K) ++ (h <$> filter Q (g <$> K)) ⊆+ K ++ (f <$> filter P K).
Proof.
  induction K as [|x K IH]; intros Hx; [reflexivity|].
  assert ((g <$> x :: K) ++ (h <$> filter Q (g <$> x :: K))
          ≡ₚ (g x :: (h <$> filter Q [g x]))
             ++ ((g <$> K) ++ (h <$> filter Q (g <$> K)))) as ->.
  { rewrite fmap_cons. change (g x :: (g <$> K)) with ([g x] ++ (g <$> K)).
    rewrite (filter_app Q), fmap_app. solve_Permutation. }
  assert (x :: K ++ (f <$> filter P (x :: K))
          ≡ₚ (x :: (f <$> filter P [x])) ++ (K ++ (f <$> filter P K))) as Hr.
  { change (filter P (x :: K)) with (filter P ([x] ++ K)).
    rewrite (filter_app P), fmap_app. solve_Permutation. }
  change ((x :: K) ++ (f <$> filter P (x :: K)))
    with (x :: K ++ (f <$> filter P (x :: K))).
  rewrite Hr. apply submseteq_app.
  - apply Hx, list_elem_of_here.
  - apply IH. intros y Hy. apply Hx. now apply list_elem_of_further.
Qed.

Lemma filter_singleton_True {A} (P : A -> Prop) `{forall x, Decision (P x)} x :
  P x -> filter P [x] = [x].
Proof. intros Hx. now rewrite filter_cons_True by exact Hx. Qed.

Lemma filter_singleton_False {A} (P : A -> Prop) `{forall x, Decision (P x)} x :
  ¬ P x -> filter P [x] = [].
Proof. intros Hx. now rewrite filter_cons_False by exact Hx. Qed.

Lemma keys_rename_keys {V} old new (d : dict V) :
  keys (rename_keys old new d) = rename_key old new <$> keys d.
Proof. unfold keys, rename_keys. rewrite <- !list_fmap_compose. reflexivity. Qed.

Lemma startswith_refl (s : string) : startswith s s = true.
Proof. induction s as [|c s IH]; simpl; [reflexivity|]. now rewrite Ascii.eqb_refl. Qed.

Lemma nodot_drop (n : nat) (s : string) : nodot s = true -> nodot (string_drop n s) = true.
Proof.
  revert s. induction n as [|n IH]; intros s H; simpl; [exact H|].
  destruct s as [|c s]; [reflexivity|]. simpl in H.
  apply andb_prop in H as [_ H]. now apply IH.
Qed.

Lemma rename_key_prefix old new k :
  has_prefix old k -> rename_key old new k = renamed old new k.
Proof. unfold has_prefix, rename_key. now intros ->. Qed.

Lemma rename_key_other old new k :
  ¬ has_prefix old k -> rename_key old new k = k.
Proof. unfold has_prefix, rename_key. now destruct (startswith k old). Qed.

Lemma rename_keys_id {V} old new (d : dict V) :
  (forall x, x ∈ keys d -> ¬ has_prefix old x) -> rename_keys old new d = d.
Proof.
  induction d as [|[k v] d IH]; intros H; [reflexivity|].
  unfold rename_keys in *. rewrite fmap_cons. simpl.
  rewrite rename_key_other by (apply H, list_elem_of_here).
  f_equal. apply IH. intros x Hx. apply H. now apply list_elem_of_further.
Qed.

Section import_success.
Context {V : Type} (prefix : string).
Implicit Types (d : dict V) (k : string).

Local Abbreviation old := (prefix +:+ "_fpw_module.flat_param").
Local Abbreviation new := (prefix +:+ "flat_param").

(** A key that has been moved up no longer lies under [_fpw_module]. *)
Lemma lifted_not_flat x : ¬ has_prefix old (renamed old new x).
Proof.
  unfold has_prefix, renamed. rewrite string_app_assoc, startswith_cancel.
  sapp. discriminate.
Qed.

Lemma flat_key_last_part k :
  has_prefix old k -> nodot (string_drop (String.length old) k) = true ->
  last_part k = "flat_param" +:+ string_drop (String.length old) k.
Proof.
  intros Hk Hr. apply startswith_split in Hk.
  set (r := string_drop (String.length old) k) in *. rewrite Hk.
  replace (old +:+ r)
    with ((prefix +:+ "_fpw_module") +:+ String "." ("flat_param" +:+ r))
    by (rewrite !string_app_assoc; reflexivity).
  apply last_part_app. now rewrite nodot_app.
Qed.

Section one_key.
Context (k : string) (Hk : has_prefix old k).
Local Abbreviation r := (string_drop (String.length old) k).
Local Abbreviation new' := (prefix +:+ "flat_param" +:+ r).

Lemma under_key_flat x : has_prefix k x -> has_prefix old x.
Proof. unfold has_prefix in *. intros Hx. now apply (startswith_trans x k). Qed.

Lemma under_key_renamed x : has_prefix k x -> renamed k new' x = renamed old new x.
Proof.
  intros Hx. unfold renamed. apply startswith_split in Hx.
  pose proof (startswith_split k old Hk) as Hk'.
  set (r' := string_drop (String.length k) x) in *.
  set (r0 := string_drop (String.length old) k) in *.
  clearbody r' r0.
  assert (string_drop (String.length old) x = r0 +:+ r') as ->.
  { rewrite Hx, Hk', string_app_assoc. apply string_drop_app. }
  now rewrite !string_app_assoc.
Qed.

Lemma under_key_targets (K : list string) :
  (renamed k new' <$> filter (has_prefix k) K)
  ⊆+ (renamed old new <$> filter (has_prefix old) K).
Proof.
  induction K as [|x K IH]; [reflexivity|].
  destruct (decide (has_prefix k x)) as [Hx|Hx].
  - rewrite (filter_cons_True (has_prefix k)) by exact Hx.
    rewrite (filter_cons_True (has_prefix old)) by now apply under_key_flat.
    rewrite !fmap_cons, under_key_renamed by exact Hx.
    now apply submseteq_skip.
  - rewrite (filter_cons_False (has_prefix k)) by exact Hx.
    destruct (decide (has_prefix old x)) as [Ho|Ho].
    + rewrite (filter_cons_True (has_prefix old)) by exact Ho.
      rewrite fmap_cons. now apply submseteq_cons.
    + now rewrite (filter_cons_False (has_prefix old)) by exact Ho.
Qed.

Lemma under_key_collision_free d :
  collision_free old new d -> collision_free k new' d.
Proof.
  unfold collision_free. apply NoDup_submseteq_inv.
  apply submseteq_skips_l, under_key_targets.
Qed.

Lemma rename_key_absorb x :
  rename_key old new (rename_key k new' x) = rename_key old new x.
Proof.
  destruct (decide (has_prefix k x)) as [Hx|Hx].
  - rewrite (rename_key_prefix k) by exact Hx.
    rewrite under_key_renamed by exact Hx.
    rewrite rename_key_other by apply lifted_not_flat.
    now rewrite rename_key_prefix by now apply under_key_flat.
  - now rewrite (rename_key_other k) by exact Hx.
Qed.

Lemma moved_collision_free d :
  collision_free old new d -> collision_free old new (moved k new' d).
Proof.
  unfold collision_free. intros H.
  assert (keys (moved k new' d) ≡ₚ rename_key k new' <$> keys d) as ->.
  { rewrite <- keys_rename_keys. unfold keys.
    now rewrite moved_Permutation. }
  eapply NoDup_submseteq_inv; [|exact H].
  apply (contributions_submseteq (rename_key k new') (renamed old new)
           (renamed old new) (has_prefix old) (has_prefix old)).
  intros x _. destruct (decide (has_prefix k x)) as [Hx|Hx].
  - rewrite (rename_key_prefix k), under_key_renamed by exact Hx.
    rewrite filter_singleton_False by apply lifted_not_flat.
    rewrite filter_singleton_True by now apply under_key_flat.
    simpl. apply submseteq_cons. reflexivity.
  - now rewrite (rename_key_other k) by exact Hx.
Qed.

End one_key.

Lemma lift_flat_loop_ok (ks : list string) d :
  collision_free old new d ->
  (forall x, x ∈ keys d -> has_prefix old x -> x ∈ ks) ->
  (forall k, k ∈ ks -> has_prefix old k ->
     nodot (string_drop (String.length old) k) = true) ->
  exists d',
    for_each ks (lift_flat_param prefix old) d = (Ok tt, d') /\
    collision_free old new d' /\ d' ≡ₚ rename_keys old new d.
Proof.
  revert d. induction ks as [|k ks IH]; intros d Hcf Hin Hnd.
  - exists d. split; [reflexivity|]. split; [exact Hcf|].
    rewrite rename_keys_id; [reflexivity|].
    intros x Hx Hp. now apply Hin, elem_of_nil in Hp.
  - simpl. unfold bind, lift_flat_param at 1.
    destruct (startswith k old) eqn:Hk.
    + pose proof (Hnd k (list_elem_of_here _ _) Hk) as Hr.
      pose proof (flat_key_neq_target prefix k Hk) as Hneq.
      rewrite (flat_key_last_part k Hk Hr) in *.
      change FLAT_PARAM with "flat_param". rewrite startswith_app.
      rewrite _replace_by_prefix_exact;
        [|exact Hneq | now apply under_key_collision_free].
      destruct (IH (moved k (prefix +:+ "flat_param"
                      +:+ string_drop (String.length old) k) d))
        as (d' & Hd' & Hcf' & Hperm).
      * now apply moved_collision_free.
      * intros x Hx Hp. rewrite keys_moved in Hx.
        apply elem_of_app in Hx as [Hx|Hx].
        -- apply list_elem_of_filter in Hx as [Hnk Hx].
           specialize (Hin x Hx Hp). apply elem_of_cons in Hin as [->|Hin];
             [|exact Hin].
           exfalso. apply Hnk. apply startswith_refl.
        -- apply list_elem_of_fmap in Hx as (y & -> & Hy).
           apply list_elem_of_filter in Hy as [Hy _].
           rewrite (under_key_renamed k Hk y Hy) in Hp.
           now apply lifted_not_flat in Hp.
      * intros k' Hk'. apply Hnd. now apply list_elem_of_further.
      * exists d'. split; [exact Hd'|]. split; [exact Hcf'|].
        rewrite Hperm. unfold rename_keys at 1.
        rewrite moved_Permutation. unfold rename_keys.
        rewrite <- list_fmap_compose.
        erewrite list_fmap_ext; [reflexivity|].
        intros _ [x v] _. simpl. f_equal. now apply rename_key_absorb.
    + apply IH; [exact Hcf | | ].
      * intros x Hx Hp. specialize (Hin x Hx Hp).
        apply elem_of_cons in Hin as [->|Hin]; [|exact Hin].
        unfold has_prefix in Hp. congruence.
      * intros k' Hk'. apply Hnd. now apply list_elem_of_further.
Qed.

End import_success.

Section import_hook.
Context {V : Type} (prefix : string).
Implicit Types (d : dict V) (k : string).

Local Abbreviation pfm := (prefix +:+ "_fpw_module.").
Local Abbreviation old := (prefix +:+ "_fpw_module.flat_param").
Local Abbreviation new := (prefix +:+ "flat_param").

Lemma old_is_pfm_flat : old = pfm +:+ "flat_param".
Proof. now rewrite string_app_assoc. Qed.

Lemma pushed_flat_iff rest :
  startswith (pfm +:+ rest) old = startswith rest "flat_param".
Proof. rewrite old_is_pfm_flat. apply startswith_cancel. Qed.

Lemma pushed_is_renamed rest : renamed prefix pfm (prefix +:+ rest) = pfm +:+ rest.
Proof. unfold renamed. now rewrite string_drop_app. Qed.

Lemma flat_not_under_prefix k : startswith k prefix = false -> ¬ has_prefix old k.
Proof.
  unfold has_prefix. intros Hk Ho. apply startswith_app_r in Ho. congruence.
Qed.

(** Pushing a [flat_param] slot down and lifting it again gives its name
    back. *)
Lemma lift_pushed rest :
  startswith rest "flat_param" = true ->
  renamed old new (pfm +:+ rest) = prefix +:+ rest.
Proof.
  intros Hr. apply startswith_split in Hr.
  set (r2 := string_drop (String.length "flat_param") rest) in *. clearbody r2.
  subst rest. unfold renamed.
  replace (pfm +:+ "flat_param" +:+ r2) with (old +:+ r2)
    by (rewrite !string_app_assoc; reflexivity).
  rewrite string_drop_app. now rewrite string_app_assoc.
Qed.

Lemma pushed_collision_free d :
  collision_free prefix pfm d -> collision_free old new (moved prefix pfm d).
Proof.
  unfold collision_free. intros H.
  assert (keys (moved prefix pfm d) ≡ₚ rename_key prefix pfm <$> keys d) as ->.
  { rewrite <- keys_rename_keys. unfold keys. now rewrite moved_Permutation. }
  eapply NoDup_submseteq_inv; [|exact H].
  apply (contributions_submseteq (rename_key prefix pfm) (renamed prefix pfm)
           (renamed old new) (has_prefix prefix) (has_prefix old)).
  intros x _. destruct (startswith x prefix) eqn:Hx.
  - rewrite rename_key_prefix by exact Hx.
    rewrite (filter_singleton_True (has_prefix prefix)) by exact Hx.
    apply startswith_split in Hx.
    set (rest := string_drop (String.length prefix) x) in *. clearbody rest.
    subst x. rewrite pushed_is_renamed.
    destruct (startswith rest "flat_param") eqn:Hr.
    + rewrite filter_singleton_True
        by (unfold has_prefix; now rewrite pushed_flat_iff).
      simpl. rewrite lift_pushed by exact Hr. rewrite pushed_is_renamed.
      apply Permutation_submseteq, perm_swap.
    + rewrite filter_singleton_False
        by (unfold has_prefix; rewrite pushed_flat_iff; congruence).
      simpl. rewrite pushed_is_renamed. apply submseteq_cons. reflexivity.
  - rewrite rename_key_other by (unfold has_prefix; congruence).
    rewrite filter_singleton_False by now apply flat_not_under_prefix.
    rewrite filter_singleton_False by (unfold has_prefix; congruence).
    reflexivity.
Qed.

Lemma final_key_outside k :
  startswith k prefix = false ->
  rename_key old new (rename_key prefix pfm k) = k.
Proof.
  intros Hk. rewrite (rename_key_other prefix) by (unfold has_prefix; congruence).
  apply rename_key_other. now apply flat_not_under_prefix.
Qed.

Lemma final_key_child rest :
  startswith rest "flat_param" = false ->
  rename_key old new (rename_key prefix pfm (prefix +:+ rest)) = pfm +:+ rest.
Proof.
  intros Hr. rewrite (rename_key_prefix prefix) by apply startswith_app.
  rewrite pushed_is_renamed. apply rename_key_other.
  unfold has_prefix. rewrite pushed_flat_iff. congruence.
Qed.

Lemma final_key_flat rest :
  startswith rest "flat_param" = true ->
  rename_key old new (rename_key prefix pfm (prefix +:+ rest)) = prefix +:+ rest.
Proof.
  intros Hr. rewrite (rename_key_prefix prefix) by apply startswith_app.
  rewrite pushed_is_renamed, rename_key_prefix
    by (unfold has_prefix; now rewrite pushed_flat_iff).
  now apply lift_pushed.
Qed.

Lemma last_part_pushed rest :
  nodot rest = true -> last_part (pfm +:+ rest) = rest.
Proof.
  intros Hr.
  replace (pfm +:+ rest) with ((prefix +:+ "_fpw_module") +:+ String "." rest)
    by (rewrite !string_app_assoc; reflexivity).
  now apply last_part_app.
Qed.

(** The import hook on a mapping without name clashes whose [flat_param]
    slots sit directly under the prefix. *)
Lemma pre_load_hook_permutation d :
  collision_free prefix pfm d ->
  (forall k, k ∈ keys d -> startswith k new = true ->
     nodot (string_drop (String.length prefix) k) = true) ->
  exists d',
    _pre_load_state_dict_hook prefix d = (Ok tt, d') /\ dict_wf d' /\
    d' ≡ₚ rename_keys old new (rename_keys prefix pfm d).
Proof.
  intros Hcf Hslots.
  assert (prefix <> pfm) as Hne.
  { intros Heq. symmetry in Heq. revert Heq.
    apply string_app_neq_self. discriminate. }
  destruct (lift_flat_loop_ok prefix (keys (moved prefix pfm d))
              (moved prefix pfm d)) as (d' & Hd' & Hcf' & Hperm).
  - now apply pushed_collision_free.
  - auto.
  - intros k Hin Hk. rewrite keys_moved in Hin.
    apply elem_of_app in Hin as [Hin|Hin].
    + apply list_elem_of_filter in Hin as [Hnp _]. exfalso.
      unfold has_prefix in *. apply Hnp. now apply startswith_app_r in Hk.
    + apply list_elem_of_fmap in Hin as (y & -> & Hy).
      apply list_elem_of_filter in Hy as [Hyp Hy].
      pose proof (startswith_split y prefix Hyp) as Hy'.
      specialize (Hslots y Hy).
      set (rest := string_drop (String.length prefix) y) in *. clearbody rest.
      subst y. rewrite pushed_is_renamed in *.
      unfold has_prefix in Hk. rewrite pushed_flat_iff in Hk.
      rewrite startswith_cancel in Hslots. specialize (Hslots Hk).
      apply startswith_split in Hk.
      set (r2 := string_drop (String.length "flat_param") rest) in *.
      clearbody r2. subst rest.
      replace (pfm +:+ "flat_param" +:+ r2) with (old +:+ r2)
        by (rewrite !string_app_assoc; reflexivity).
      rewrite string_drop_app. rewrite nodot_app in Hslots.
      now apply andb_prop in Hslots as [_ ?].
  - exists d'. split; [|split].
    + unfold _pre_load_state_dict_hook, bind at 1.
      change (prefix +:+ FPW_MODULE +:+ ".") with pfm.
      rewrite (_replace_by_prefix_exact prefix pfm d Hne Hcf).
      unfold bind, dict_keys.
      change (prefix +:+ FPW_MODULE +:+ "." +:+ FLAT_PARAM) with old.
      exact Hd'.
    + now apply collision_free_wf in Hcf'.
    + rewrite Hperm. unfold rename_keys at 1.
      rewrite moved_Permutation. reflexivity.
Qed.

End import_hook.

(** C2, as the code has it: on a mapping without name clashes whose
    [flat_param] slots sit directly under the prefix, the import hook
    succeeds; keys outside the prefix stay, a key [P + rest] ends as
    [P + "_fpw_module." + rest], except that a key whose pushed-down name
    begins with [P + "_fpw_module.flat_param"] ends as [P] followed by its
    last segment, which is its old name. *)
Theorem pre_load_state_dict_hook_remaps {V} (prefix : string) (d : dict V) :
  collision_free prefix (prefix +:+ "_fpw_module.") d ->
  (forall k, k ∈ keys d -> startswith k (prefix +:+ "flat_param") = true ->
     nodot (string_drop (String.length prefix) k) = true) ->
  exists d',
    _pre_load_state_dict_hook prefix d = (Ok tt, d') /\
    dict_wf d' /\ length d' = length d /\
    (forall k v, (k, v) ∈ d -> startswith k prefix = false -> (k, v) ∈ d') /\
    (forall rest v,
        (prefix +:+ rest, v) ∈ d -> startswith rest "flat_param" = false ->
        (prefix +:+ "_fpw_module." +:+ rest, v) ∈ d') /\
    (forall rest v,
        (prefix +:+ rest, v) ∈ d -> startswith rest "flat_param" = true ->
        let pushed := prefix +:+ "_fpw_module." +:+ rest in
        startswith pushed (prefix +:+ "_fpw_module.flat_param") = true /\
        (prefix +:+ last_part pushed, v) ∈ d' /\
        prefix +:+ last_part pushed = prefix +:+ rest).
Proof.
  intros Hcf Hslots.
  destruct (pre_load_hook_permutation prefix d Hcf Hslots)
    as (d' & Hrun & Hwf & Hperm).
  assert (forall k v, (k, v) ∈ d ->
            (rename_key (prefix +:+ "_fpw_module.flat_param")
               (prefix +:+ "flat_param")
               (rename_key prefix (prefix +:+ "_fpw_module.") k), v) ∈ d')
    as Hfinal.
  { intros k v Hin. rewrite Hperm. unfold rename_keys.
    rewrite <- list_fmap_compose. apply list_elem_of_fmap.
    exists (k, v). split; [reflexivity | exact Hin]. }
  exists d'. split; [exact Hrun|]. split; [exact Hwf|]. split.
  { rewrite Hperm. unfold rename_keys. now rewrite !length_fmap. }
  split; [|split].
  - intros k v Hin Hk. specialize (Hfinal k v Hin).
    now rewrite final_key_outside in Hfinal.
  - intros rest v Hin Hr. specialize (Hfinal _ v Hin).
    rewrite final_key_child in Hfinal by exact Hr.
    now rewrite string_app_assoc in Hfinal.
  - intros rest v Hin Hr pushed. specialize (Hfinal _ v Hin).
    rewrite final_key_flat in Hfinal by exact Hr.
    assert (nodot rest = true) as Hnd.
    { rewrite <- (string_drop_app prefix rest).
      apply Hslots.
      - apply list_elem_of_fmap. exists (prefix +:+ rest, v). now split.
      - now rewrite startswith_cancel. }
    assert (last_part pushed = rest) as ->.
    { unfold pushed. rewrite <- string_app_assoc.
      now apply last_part_pushed. }
    repeat split; [|exact Hfinal].
    unfold pushed. rewrite <- string_app_assoc. now rewrite pushed_flat_iff.
Qed.

(** *** The hooks on concrete mappings *)

Ltac decide_closed :=
  match goal with
  | |- ?P => apply (bool_decide_unpack P); vm_compute; exact I
  end.


Lemma pre_load_state_dict_hook_remaps_witness :
  exists d',
    _pre_load_state_dict_hook "a.b."
      [("a.b.flat_param_0", 1); ("a.b.other", 2); ("c.x", 3)]
    = (Ok tt, d') /\
    ("a.b.flat_param_0", 1) ∈ d' /\ ("a.b._fpw_module.other", 2) ∈ d' /\
    ("c.x", 3) ∈ d'.
Proof.
  destruct (pre_load_state_dict_hook_remaps "a.b."
              [("a.b.flat_param_0", 1); ("a.b.other", 2); ("c.x", 3)])
    as (d' & Hrun & _ & _ & Hout & Hchild & Hflat).
  { unfold collision_free. decide_closed. }
  { intros k Hin _. unfold keys in Hin. simpl in Hin.
    rewrite !elem_of_cons, elem_of_nil in Hin.
    destruct Hin as [->|[->|[->|[]]]]; reflexivity. }
  exists d'. split; [exact Hrun|]. split; [|split].
  - destruct (Hflat "flat_param_0" 1) as (_ & Hin & _);
      [apply list_elem_of_here | reflexivity | exact Hin].
  - apply (Hchild "other" 2); [|reflexivity].
    apply list_elem_of_further, list_elem_of_here.
  - apply Hout; [|reflexivity].
    apply list_elem_of_further, list_elem_of_further, list_elem_of_here.
Defined.


(** C2 as worded fails: a [flat_param] slot of a module deeper in the
    wrapped child ends in a [flat_param] segment, yet it stays below
    [_fpw_module]; only keys under [P + "_fpw_module.flat_param"] come
    back up. *)
Lemma import_nested_flat_param_stays_below :
  _pre_load_state_dict_hook "a.b." [("a.b.sub.flat_param", 1)]
  = (Ok tt, [("a.b._fpw_module.sub.flat_param", 1)]) /\
  import_key_as_specified "a.b." "a.b.sub.flat_param" = "a.b.flat_param" /\
  dict_get "a.b.flat_param" [("a.b._fpw_module.sub.flat_param", 1)] = None.
Proof. repeat split; vm_compute; reflexivity. Qed.

Lemma pre_load_state_dict_hook_format_error_witness :
  exists msg d',
    _pre_load_state_dict_hook "a.b."
      [("a.b.flat_param.weight", 1); ("a.b.other", 2)]
    = (Raise (AssertionError msg), d').
Proof.
  apply (pre_load_state_dict_hook_format_error "a.b."
           [("a.b.flat_param.weight", 1); ("a.b.other", 2)]
           [("a.b._fpw_module.flat_param.weight", 1); ("a.b._fpw_module.other", 2)]
           "a.b._fpw_module.flat_param.weight").
  - unfold dict_wf. decide_closed.
  - vm_compute. reflexivity.
  - apply list_elem_of_here.
  - reflexivity.
  - reflexivity.
Defined.

(** ** The wrapper: reading attributes *)

(** Unfold the plumbing of the state monad and the wrapper's methods. *)
Ltac run :=
  unfold _register_flat_param, _deregister_flat_param, flat_param, handle,
    has_params, self_getattr, set_self, log, lift, lift_views, bind, ret,
    raise, get, modify, try_finally in *.

Lemma pop_default_delete {V} (key : string) (default : V) (d : gmap string V) :
  (pop_default key default d).2 = delete key d.
Proof.
  unfold pop_default. destruct (d !! key) eqn:E; [reflexivity|].
  simpl. symmetry. now apply delete_id.
Qed.

Section owned.
Context (w : World) (h : FlatParamHandle).
Hypothesis Hown : _flat_param_handle (self w) = Some h.

Lemma getattr_own_handle : getattr (self w) "_flat_param_handle" = Ok (VHandle h).
Proof. unfold getattr, instance_attr. simpl. now rewrite Hown. Qed.

Lemma hasattr_own_handle : hasattr (self w) "_flat_param_handle" = Ok true.
Proof. unfold hasattr. now rewrite getattr_own_handle. Qed.

Lemma has_params_owned : has_params w = (Ok true, w).
Proof. run. now rewrite hasattr_own_handle. Qed.

Lemma handle_owned : handle w = (Ok (VHandle h), w).
Proof. run. rewrite hasattr_own_handle. now rewrite getattr_own_handle. Qed.

Lemma flat_param_owned : flat_param w = (Ok (VTensor (handle_flat_param h)), w).
Proof.
  unfold flat_param, bind. rewrite has_params_owned, handle_owned. reflexivity.
Qed.

End owned.

(** ** The wrapper: registering and de-registering *)

Lemma _deregister_flat_param_eval (w : World) :
  _deregister_flat_param w
  = (Ok tt, {| self := set_parameters (delete "flat_param") (self w);
               views := views w; trace := trace w |}).
Proof.
  run. unfold set_parameters. cbv beta. now rewrite pop_default_delete.
Qed.

Lemma _register_flat_param_owned (w : World) (h : FlatParamHandle) :
  _flat_param_handle (self w) = Some h ->
  _register_flat_param w
  = (Ok tt, {| self := set_parameters
                         (insert "flat_param" (VTensor (handle_flat_param h)))
                         (self w);
               views := views w; trace := trace w |}).
Proof.
  intros Hown. unfold _register_flat_param, bind.
  now rewrite (flat_param_owned w h Hown).
Qed.

Lemma use_unsharded_views_eval (h : FlatParamHandle) (b : bool) (w : World) :
  FlatParamHandle__use_unsharded_views h b w
  = (Ok tt, {| self := self w; views := views_set h b (views w);
               trace := trace w ++ [use_unsharded_views h b] |}).
Proof. reflexivity. Qed.

(** A scope on a wrapper that owns a handle, step by step: de-register,
    install the views, run the block, retract the views, register again;
    the outcome of the block is the outcome of the scope. *)
Lemma unflatten_as_params_owned {A} (w : World) (h : FlatParamHandle)
    (f : Views -> result A * Views) :
  _flat_param_handle (self w) = Some h ->
  unflatten_as_params (lift_views f) w
  = (let (r, v') := f (views_set h true (views w)) in
     (r, {| self := after_scope h (self w);
            views := views_set h false v';
            trace := trace w ++ [use_unsharded_views h true;
                                 use_unsharded_views h false] |})).
Proof.
  intros Hown. unfold unflatten_as_params, bind at 1.
  rewrite (flat_param_owned w h Hown).
  unfold bind at 1. rewrite _deregister_flat_param_eval.
  set (w1 := {| self := set_parameters (delete "flat_param") (self w);
                views := views w; trace := trace w |}).
  assert (_flat_param_handle (self w1) = Some h) as Hown1 by exact Hown.
  unfold try_finally, bind at 1, self_getattr at 1, bind at 1, get, lift at 1.
  rewrite (getattr_own_handle w1 h Hown1).
  unfold bind at 1, lift at 1. cbn [as_handle].
  unfold FlatParamHandle_unflatten_as_params, bind at 1.
  rewrite use_unsharded_views_eval. unfold try_finally, lift_views.
  subst w1. cbn [self views trace].
  destruct (f (views_set h true (views w))) as [r v'].
  rewrite use_unsharded_views_eval. cbn [self views trace].
  set (w3 := {| self := set_parameters (delete "flat_param") (self w);
                views := views_set h false v';
                trace := (trace w ++ [use_unsharded_views h true])
                         ++ [use_unsharded_views h false] |}).
  assert (_flat_param_handle (self w3) = Some h) as Hown3 by exact Hown.
  unfold bind at 1. rewrite (handle_owned w3 h Hown3).
  unfold bind at 1, lift at 1. cbn [value_getattr String.eqb Ascii.eqb Bool.eqb].
  unfold after_scope. cbn [truthy].
  destruct (handle_use_orig_params h); cbn [negb].
  - unfold ret. subst w3. now rewrite <- app_assoc.
  - rewrite (_register_flat_param_owned w3 h Hown3).
    subst w3. cbn [self views trace]. now rewrite <- app_assoc.
Qed.

(** The two halves agree with the scope: entry, the block, exit. *)
Lemma unflatten_enter_owned (w : World) (h : FlatParamHandle) :
  _flat_param_handle (self w) = Some h ->
  unflatten_enter w
  = (Ok tt, {| self := set_parameters (delete "flat_param") (self w);
               views := views_set h true (views w);
               trace := trace w ++ [use_unsharded_views h true] |}).
Proof.
  intros Hown. unfold unflatten_enter, bind at 1.
  rewrite _deregister_flat_param_eval.
  set (w1 := {| self := set_parameters (delete "flat_param") (self w);
                views := views w; trace := trace w |}).
  assert (_flat_param_handle (self w1) = Some h) as Hown1 by exact Hown.
  unfold bind at 1, self_getattr at 1, bind at 1, get, lift at 1.
  rewrite (getattr_own_handle w1 h Hown1).
  unfold bind at 1, lift at 1. cbn [as_handle].
  now rewrite use_unsharded_views_eval.
Qed.

Lemma unflatten_exit_owned (w : World) (h : FlatParamHandle) :
  _flat_param_handle (self w) = Some h ->
  unflatten_exit w
  = (Ok tt,
     {| self := if handle_use_orig_params h then self w
                else set_parameters
                       (insert "flat_param" (VTensor (handle_flat_param h)))
                       (self w);
        views := views_set h false (views w);
        trace := trace w ++ [use_unsharded_views h false] |}).
Proof.
  intros Hown. unfold unflatten_exit, try_finally.
  unfold bind at 1, self_getattr at 1, bind at 1, get, lift at 1.
  rewrite (getattr_own_handle w h Hown).
  unfold bind at 1, lift at 1. cbn [as_handle].
  rewrite use_unsharded_views_eval.
  set (w3 := {| self := self w; views := views_set h false (views w);
                trace := trace w ++ [use_unsharded_views h false] |}).
  assert (_flat_param_handle (self w3) = Some h) as Hown3 by exact Hown.
  unfold bind at 1. rewrite (handle_owned w3 h Hown3).
  unfold bind at 1, lift at 1. cbn [value_getattr String.eqb Ascii.eqb Bool.eqb].
  cbn [truthy]. destruct (handle_use_orig_params h); cbn [negb].
  - reflexivity.
  - now rewrite (_register_flat_param_owned w3 h Hown3).
Qed.

Lemma unflatten_as_params_halves {A} (w : World) (h : FlatParamHandle)
    (f : Views -> result A * Views) :
  _flat_param_handle (self w) = Some h ->
  unflatten_as_params (lift_views f) w
  = (let (_, w1) := unflatten_enter w in
     let (r, w2) := lift_views f w1 in
     let (_, w3) := unflatten_exit w2 in
     (r, w3)).
Proof.
  intros Hown. rewrite (unflatten_as_params_owned w h f Hown).
  rewrite (unflatten_enter_owned w h Hown). unfold lift_views.
  cbn [self views trace]. destruct (f (views_set h true (views w))) as [r v'].
  rewrite (unflatten_exit_owned _ h) by exact Hown.
  cbn [self views trace]. unfold after_scope, set_parameters.
  cbn [_fpw_module _parameters _state_dict_hooks _load_state_dict_pre_hooks
       _flat_param_handle _use_orig_params].
  rewrite <- app_assoc. now destruct (handle_use_orig_params h).
Qed.

(** ** The wrapper: construction *)

Lemma assert_is_refl (a : Value) (w : World) : assert_is a a w = (Ok tt, w).
Proof. unfold assert_is. now rewrite decide_True. Qed.

Lemma getattr_fpw_module (o : FlattenParamsWrapper) (m : Module) :
  _fpw_module o = Some m -> _parameters o !! "_fpw_module" = None ->
  getattr o "_fpw_module" = Ok (VModule (module_name m)).
Proof.
  intros Hm Hp. unfold getattr, instance_attr. cbn [String.eqb Ascii.eqb Bool.eqb].
  unfold __getattr__, nn_Module___getattr__. rewrite Hp, Hm. reflexivity.
Qed.

Lemma new_with_params (module : Module) (params : list nat) (device : string)
    (config : list string) (use_orig_params : bool) (v : Views) :
  params <> [] ->
  FlattenParamsWrapper_new module params device config use_orig_params v
  = (Ok tt, {| self := constructed module params device config use_orig_params;
               views := v; trace := [] |}).
Proof.
  intros Hne. destruct params as [|p params]; [contradiction|].
  unfold FlattenParamsWrapper_new, __init__. cbn [length Nat.eqb].
  do 5 (unfold bind at 1; unfold set_self at 1; unfold modify at 1;
        cbn [self views trace]).
  unfold set_fpw_module, _register_state_dict_hook,
    _register_load_state_dict_pre_hook, set_flat_param_handle,
    nn_Module___init__.
  cbn [_fpw_module _parameters _state_dict_hooks _load_state_dict_pre_hooks
       _flat_param_handle _use_orig_params app].
  set (h := FlatParamHandle_new (p :: params) module device config
              use_orig_params).
  assert (forall w, self w = constructed module (p :: params) device config
                               use_orig_params ->
            (set_self (set_use_orig_params use_orig_params) ;;;
             (a <- self_getattr FPW_MODULE ;; b <- self_getattr "_fpw_module" ;;
              assert_is a b) ;;;
             (a <- flat_param ;; b <- flat_param ;; assert_is a b)) 
              {| self := {| _fpw_module := _fpw_module (self w);
                            _parameters := _parameters (self w);
                            _state_dict_hooks := _state_dict_hooks (self w);
                            _load_state_dict_pre_hooks :=
                              _load_state_dict_pre_hooks (self w);
                            _flat_param_handle := _flat_param_handle (self w);
                            _use_orig_params := None |};
                 views := views w; trace := trace w |}
            = (Ok tt, w)) as Htail.
  { intros [o v' t] Ho. cbn [self views trace] in *. subst o.
    unfold bind at 1, set_self at 1, modify at 1. cbn [self views trace].
    unfold set_use_orig_params.
    cbn [_fpw_module _parameters _state_dict_hooks _load_state_dict_pre_hooks
         _flat_param_handle _use_orig_params constructed].
    fold (constructed module (p :: params) device config use_orig_params).
    set (w := {| self := constructed module (p :: params) device config
                           use_orig_params; views := v'; trace := t |}).
    assert (getattr (self w) "_fpw_module" = Ok (VModule (module_name module)))
      as Hm.
    { apply getattr_fpw_module; [reflexivity|].
      cbn [self w constructed _parameters].
      destruct use_orig_params; [apply lookup_empty|].
      now rewrite lookup_insert_ne. }
    unfold bind at 1. unfold bind at 1, self_getattr at 1, bind at 1, get,
      lift at 1. change FPW_MODULE with "_fpw_module". rewrite Hm.
    unfold bind at 1, self_getattr at 1, bind at 1, get, lift at 1. rewrite Hm.
    rewrite assert_is_refl.
    unfold bind at 1. rewrite (flat_param_owned w h eq_refl).
    unfold bind at 1. rewrite (flat_param_owned w h eq_refl).
    apply assert_is_refl. }
  unfold bind at 1. destruct use_orig_params eqn:Huop; cbn [negb].
  - unfold ret.
    apply (Htail {| self := constructed module (p :: params) device config true;
                    views := v; trace := [] |}). reflexivity.
  - rewrite (_register_flat_param_owned _ h) by reflexivity.
    cbn [self views trace]. unfold set_parameters.
    cbn [_fpw_module _parameters _state_dict_hooks _load_state_dict_pre_hooks
         _flat_param_handle _use_orig_params].
    apply (Htail {| self := constructed module (p :: params) device config false;
                    views := v; trace := [] |}). reflexivity.
Qed.

Lemma new_without_params (module : Module) (device : string)
    (config : list string) (use_orig_params : bool) (v : Views) :
  FlattenParamsWrapper_new module [] device config use_orig_params v
  = (Ok tt, {| self := constructed_empty module; views := v; trace := [] |}).
Proof. reflexivity. Qed.

(** ** Frame facts: what a method leaves alone *)

Lemma pure_read_ret {A} (a : A) : pure_read (ret a).
Proof. intros w. reflexivity. Qed.

Lemma pure_read_raise {A} (e : Exn) : pure_read (raise (A := A) e).
Proof. intros w. reflexivity. Qed.

Lemma pure_read_lift {A} (r : result A) : pure_read (lift r).
Proof. intros w. reflexivity. Qed.

Lemma pure_read_get : pure_read (get (S := World)).
Proof. intros w. reflexivity. Qed.

Lemma pure_read_bind {A B} (m : M A) (k : A -> M B) :
  pure_read m -> (forall a, pure_read (k a)) -> pure_read (bind m k).
Proof.
  intros Hm Hk w. unfold bind. specialize (Hm w).
  destruct (m w) as [[a|e] w1]; simpl in *; subst; [apply Hk | reflexivity].
Qed.

Lemma pure_read_keeps_self {A} (m : M A) : pure_read m -> keeps_self m.
Proof. intros H w. now rewrite H. Qed.

Lemma keeps_self_bind {A B} (m : M A) (k : A -> M B) :
  keeps_self m -> (forall a, keeps_self (k a)) -> keeps_self (bind m k).
Proof.
  intros Hm Hk w. unfold bind. specialize (Hm w).
  destruct (m w) as [[a|e] w1]; simpl in *; [|exact Hm].
  now rewrite Hk.
Qed.

Lemma keeps_self_log (e : Event) : keeps_self (log e).
Proof. intros w. reflexivity. Qed.

Lemma keeps_self_lift_views {A} (f : Views -> result A * Views) :
  keeps_self (lift_views f).
Proof. intros w. unfold lift_views. now destruct (f (views w)). Qed.

Lemma keeps_self_use_unsharded_views (h : FlatParamHandle) (b : bool) :
  keeps_self (FlatParamHandle__use_unsharded_views h b).
Proof. intros w. reflexivity. Qed.

Lemma has_params_pure : pure_read has_params.
Proof.
  unfold has_params. apply pure_read_bind; [apply pure_read_get|].
  intros w. apply pure_read_lift.
Qed.

Lemma self_getattr_pure (name : string) : pure_read (self_getattr name).
Proof.
  unfold self_getattr. apply pure_read_bind; [apply pure_read_get|].
  intros w. apply pure_read_lift.
Qed.

Lemma handle_pure : pure_read handle.
Proof.
  unfold handle. apply pure_read_bind; [apply pure_read_get|]. intros w.
  apply pure_read_bind; [apply pure_read_lift|]. intros [|].
  - apply self_getattr_pure.
  - apply pure_read_raise.
Qed.

Lemma flat_param_pure : pure_read flat_param.
Proof.
  unfold flat_param. apply pure_read_bind; [apply has_params_pure|].
  intros [|]; [|apply pure_read_ret].
  apply pure_read_bind; [apply handle_pure|]. intros hv. apply pure_read_lift.
Qed.

Lemma getitem_pure (key : Z) : pure_read (__getitem__ key).
Proof.
  unfold __getitem__. apply pure_read_bind; [apply pure_read_get|]. intros w.
  apply pure_read_bind; [apply pure_read_lift|]. intros m. apply pure_read_lift.
Qed.

Lemma call_wrapped_keeps_self inputs kwinputs :
  keeps_self (call_wrapped inputs kwinputs).
Proof.
  unfold call_wrapped.
  apply keeps_self_bind; [apply pure_read_keeps_self, pure_read_get|]. intros w.
  apply keeps_self_bind; [apply pure_read_keeps_self, pure_read_lift|]. intros m.
  apply keeps_self_bind; [apply keeps_self_log|]. intros _.
  apply keeps_self_lift_views.
Qed.

(** [forward] never changes the wrapper object. *)
Lemma forward_keeps_self inputs kwinputs : keeps_self (forward inputs kwinputs).
Proof.
  unfold forward.
  apply keeps_self_bind; [apply pure_read_keeps_self, flat_param_pure|].
  intros fp. apply keeps_self_bind; [|intros _; apply call_wrapped_keeps_self].
  assert (keeps_self
            (uop <- self_getattr "_use_orig_params" ;;
             if negb (truthy uop) then
               hv <- self_getattr "_flat_param_handle" ;;
               h <- lift (as_handle hv) ;;
               FlatParamHandle__use_unsharded_views h false
             else ret tt)) as Hsome.
  { apply keeps_self_bind; [apply pure_read_keeps_self, self_getattr_pure|].
    intros uop. destruct (negb (truthy uop));
      [|apply pure_read_keeps_self, pure_read_ret].
    apply keeps_self_bind; [apply pure_read_keeps_self, self_getattr_pure|].
    intros hv.
    apply keeps_self_bind; [apply pure_read_keeps_self, pure_read_lift|].
    intros h. apply keeps_self_use_unsharded_views. }
  destruct fp; try exact Hsome. apply pure_read_keeps_self, pure_read_ret.
Qed.

(** ** The wrapper object across its life *)

Lemma after_scope_constructed module params device config use_orig_params :
  after_scope
    (FlatParamHandle_new params module device config use_orig_params)
    (constructed module params device config use_orig_params)
  = constructed module params device config use_orig_params.
Proof.
  unfold after_scope, constructed, set_parameters.
  cbn [handle_use_orig_params FlatParamHandle_new handle_flat_param
       _fpw_module _parameters _state_dict_hooks _load_state_dict_pre_hooks
       _flat_param_handle _use_orig_params].
  destruct use_orig_params.
  - now rewrite delete_empty.
  - now rewrite insert_delete_eq, insert_insert_eq.
Qed.

Lemma bind_ext {S A B} (m : St S A) (k1 k2 : A -> St S B) (s : S) :
  (forall a s', k1 a s' = k2 a s') -> bind m k1 s = bind m k2 s.
Proof. intros H. unfold bind. destruct (m s) as [[a|e] s1]; [apply H | reflexivity]. Qed.

Lemma try_finally_ext {S A} (b1 b2 : St S A) (fin : St S unit) (s : S) :
  (forall s', b1 s' = b2 s') -> try_finally b1 fin s = try_finally b2 fin s.
Proof. intros H. unfold try_finally. now rewrite H. Qed.

Lemma unflatten_as_params_ext {A} (b1 b2 : M A) (w : World) :
  (forall w', b1 w' = b2 w') ->
  unflatten_as_params b1 w = unflatten_as_params b2 w.
Proof.
  intros Hb. unfold unflatten_as_params. apply bind_ext. intros fp s.
  assert (forall s : World,
            (_deregister_flat_param ;;;
             try_finally
               (hv <- self_getattr "_flat_param_handle" ;;
                h <- lift (as_handle hv) ;;
                FlatParamHandle_unflatten_as_params h b1)
               (hv <- handle ;;
                uop <- lift (value_getattr hv "_use_orig_params") ;;
                if negb (truthy uop) then _register_flat_param else ret tt)) s
            = (_deregister_flat_param ;;;
               try_finally
                 (hv <- self_getattr "_flat_param_handle" ;;
                  h <- lift (as_handle hv) ;;
                  FlatParamHandle_unflatten_as_params h b2)
                 (hv <- handle ;;
                  uop <- lift (value_getattr hv "_use_orig_params") ;;
                  if negb (truthy uop) then _register_flat_param else ret tt)) s)
    as Hrest.
  { intros s0. apply bind_ext. intros _ s1. apply try_finally_ext. intros s2.
    apply bind_ext. intros hv s3. apply bind_ext. intros h s4.
    unfold FlatParamHandle_unflatten_as_params. apply bind_ext. intros _ s5.
    now apply try_finally_ext. }
  destruct fp; try apply Hrest. apply Hb.
Qed.

(** Once built over parameters, the wrapper object is the same after every
    completed operation. *)
Lemma reachable_with_params module params device config use_orig_params
    (w0 w : World) :
  self w0 = constructed module params device config use_orig_params ->
  reachable w0 w ->
  self w = constructed module params device config use_orig_params.
Proof.
  intros H0 Hreach. induction Hreach as
    [ | w inputs kwinputs r w' _ IH Hrun
      | w body r w' _ IH Hrun
      | w r w' _ IH Hrun | w r w' _ IH Hrun | w r w' _ IH Hrun
      | w key r w' _ IH Hrun
      | w f _ IH ].
  - exact H0.
  - pose proof (forward_keeps_self inputs kwinputs w) as Hk.
    rewrite Hrun in Hk. simpl in Hk. now rewrite Hk.
  - rewrite (unflatten_as_params_owned w
               (FlatParamHandle_new params module device config use_orig_params))
      in Hrun by now rewrite IH.
    destruct (body _) as [r' v']. injection Hrun as _ <-.
    cbn [self]. rewrite IH. apply after_scope_constructed.
  - pose proof (has_params_pure w) as Hp. rewrite Hrun in Hp. simpl in Hp.
    now subst.
  - pose proof (flat_param_pure w) as Hp. rewrite Hrun in Hp. simpl in Hp.
    now subst.
  - pose proof (handle_pure w) as Hp. rewrite Hrun in Hp. simpl in Hp.
    now subst.
  - pose proof (getitem_pure key w) as Hp. rewrite Hrun in Hp. simpl in Hp.
    now subst.
  - exact IH.
Qed.

Lemma views_set_same (h : FlatParamHandle) (b : bool) (v : Views) :
  views_set h b v h = b.
Proof. unfold views_set. now rewrite decide_True. Qed.

Lemma constructed_registry module params device config :
  _parameters (constructed module params device config false) !! "flat_param"
  = Some (VTensor (FlatParameter params)).
Proof. cbn [constructed _parameters]. apply lookup_insert_eq. Qed.

Lemma new_world module params device config use_orig_params v w0 :
  params <> [] ->
  FlattenParamsWrapper_new module params device config use_orig_params v
  = (Ok tt, w0) ->
  self w0 = constructed module params device config use_orig_params.
Proof.
  intros Hne Hnew. rewrite new_with_params in Hnew by exact Hne.
  now injection Hnew as <-.
Qed.

(** ** The scoped toggle *)

(** For a wrapper built over a non-empty parameter list with
    [use_orig_params = False], at any point of its life: when the caller's
    block raises [e], the scope raises [e] to the caller; afterwards the
    registry of parameters is what it was before entry, [flat_param] is
    registered in it, and the handle has no parameter view installed. *)
Theorem unflatten_as_params_exception_safe
    (module : Module) (params : list nat) (device : string)
    (config : list string) (v : Views) (w0 w : World)
    (body : Views -> result unit * Views) (e : Exn) (v' : Views) :
  let h := FlatParamHandle_new params module device config false in
  params <> [] ->
  FlattenParamsWrapper_new module params device config false v = (Ok tt, w0) ->
  reachable w0 w ->
  body (views_set h true (views w)) = (Raise e, v') ->
  exists w',
    unflatten_as_params (lift_views body) w = (Raise e, w') /\
    _parameters (self w') = _parameters (self w) /\
    _parameters (self w') !! "flat_param"
      = Some (VTensor (FlatParameter params)) /\
    views w' h = false.
Proof.
  intros h Hne Hnew Hreach Hbody.
  pose proof (reachable_with_params _ _ _ _ _ w0 w
                (new_world _ _ _ _ _ _ _ Hne Hnew) Hreach) as Hself.
  rewrite (unflatten_as_params_owned w h) by now rewrite Hself.
  rewrite Hbody. eexists. split; [reflexivity|].
  cbn [self views]. rewrite Hself. unfold h.
  rewrite after_scope_constructed. split; [reflexivity|]. split.
  - apply constructed_registry.
  - apply views_set_same.
Qed.

(** For a wrapper built over a non-empty parameter list with
    [use_orig_params = False], at any point of its life: a scope around an
    empty block returns normally and leaves the registry of parameters and
    the value of [flat_param] as they were before entry. *)
Theorem unflatten_as_params_empty_block_restores
    (module : Module) (params : list nat) (device : string)
    (config : list string) (v : Views) (w0 w : World) :
  params <> [] ->
  FlattenParamsWrapper_new module params device config false v = (Ok tt, w0) ->
  reachable w0 w ->
  exists w',
    unflatten_as_params (ret tt) w = (Ok tt, w') /\
    self w' = self w /\
    _parameters (self w) !! "flat_param"
      = Some (VTensor (FlatParameter params)) /\
    _parameters (self w') !! "flat_param" = _parameters (self w) !! "flat_param" /\
    flat_param w = (Ok (VTensor (FlatParameter params)), w) /\
    flat_param w' = (Ok (VTensor (FlatParameter params)), w').
Proof.
  intros Hne Hnew Hreach.
  set (h := FlatParamHandle_new params module device config false).
  pose proof (reachable_with_params _ _ _ _ _ w0 w
                (new_world _ _ _ _ _ _ _ Hne Hnew) Hreach) as Hself.
  rewrite (unflatten_as_params_ext (ret tt) (lift_views (fun x => (Ok tt, x))))
    by (intros [o x t]; reflexivity).
  rewrite (unflatten_as_params_owned w h) by now rewrite Hself.
  eexists. split; [reflexivity|]. cbn [self views].
  assert (after_scope h (self w) = self w) as Hafter
    by (rewrite Hself; apply after_scope_constructed).
  rewrite Hafter. split; [reflexivity|]. split.
  { rewrite Hself. apply constructed_registry. }
  split; [reflexivity|]. split.
  - apply (flat_param_owned w h). now rewrite Hself.
  - apply (flat_param_owned _ h). cbn [self]. now rewrite Hself.
Qed.

Lemma deregister_constructed module params device config :
  set_parameters (delete "flat_param")
    (constructed module params device config true)
  = constructed module params device config true.
Proof.
  unfold set_parameters, constructed.
  cbn [_fpw_module _parameters _state_dict_hooks _load_state_dict_pre_hooks
       _flat_param_handle _use_orig_params].
  now rewrite delete_empty.
Qed.

(** C4: for a wrapper built over a non-empty parameter list with
    [use_orig_params = True], at any point of its life: construction has
    registered nothing and has not called the handle; the registry is still
    empty; entry into the scope, exit from it and a whole scope around any
    block leave the wrapper object as it was, and all they do is ask the
    handle to install, then to retract, the views. *)
Theorem use_orig_params_never_toggles_registration
    (module : Module) (params : list nat) (device : string)
    (config : list string) (v : Views) (w0 w : World) :
  let h := FlatParamHandle_new params module device config true in
  params <> [] ->
  FlattenParamsWrapper_new module params device config true v = (Ok tt, w0) ->
  reachable w0 w ->
  _parameters (self w0) = ∅ /\ trace w0 = [] /\
  _parameters (self w) = ∅ /\
  (exists w1,
      unflatten_enter w = (Ok tt, w1) /\ self w1 = self w /\
      trace w1 = trace w ++ [use_unsharded_views h true]) /\
  (forall w2, self w2 = self w ->
     exists w3,
       unflatten_exit w2 = (Ok tt, w3) /\ self w3 = self w2 /\
       trace w3 = trace w2 ++ [use_unsharded_views h false]) /\
  (forall body : Views -> result unit * Views,
     exists w',
       unflatten_as_params (lift_views body) w
       = ((body (views_set h true (views w))).1, w') /\
       self w' = self w /\
       trace w' = trace w ++ [use_unsharded_views h true;
                              use_unsharded_views h false]).
Proof.
  intros h Hne Hnew Hreach.
  pose proof (new_world _ _ _ _ _ _ _ Hne Hnew) as Hself0.
  pose proof (reachable_with_params _ _ _ _ _ w0 w Hself0 Hreach) as Hself.
  assert (_flat_param_handle (self w) = Some h) as Hown by now rewrite Hself.
  split; [now rewrite Hself0|]. split.
  { rewrite new_with_params in Hnew by exact Hne. now injection Hnew as <-. }
  split; [now rewrite Hself|]. split; [|split].
  - rewrite (unflatten_enter_owned w h Hown). eexists. split; [reflexivity|].
    cbn [self trace]. split; [|reflexivity].
    rewrite Hself. apply deregister_constructed.
  - intros w2 Hw2. rewrite (unflatten_exit_owned w2 h) by now rewrite Hw2.
    eexists. split; [reflexivity|]. cbn [self trace].
    now cbn [h FlatParamHandle_new handle_use_orig_params].
  - intros body. rewrite (unflatten_as_params_owned w h body Hown).
    destruct (body (views_set h true (views w))) as [r v'].
    eexists. split; [reflexivity|]. cbn [self trace]. split; [|reflexivity].
    rewrite Hself. apply after_scope_constructed.
Qed.

(** ** [forward] *)

Lemma getattr_own_use_orig_params (o : FlattenParamsWrapper) (b : bool) :
  _use_orig_params o = Some b -> getattr o "_use_orig_params" = Ok (VBool b).
Proof.
  intros H. unfold getattr, instance_attr.
  cbn [String.eqb Ascii.eqb Bool.eqb]. now rewrite H.
Qed.

Lemma call_wrapped_eval (w : World) (m : Module) inputs kwinputs :
  _fpw_module (self w) = Some m ->
  call_wrapped inputs kwinputs w
  = (let (r, v') := module_call m inputs kwinputs (views w) in
     (r, {| self := self w; views := v';
            trace := trace w ++ [call_module (module_name m) inputs kwinputs] |})).
Proof.
  intros Hm. unfold call_wrapped, bind, get, lift, module. rewrite Hm.
  unfold log, modify, lift_views. cbn [self views trace]. reflexivity.
Qed.

Lemma forward_owned (w : World) (h : FlatParamHandle) (m : Module)
    inputs kwinputs :
  _flat_param_handle (self w) = Some h ->
  _use_orig_params (self w) = Some false ->
  _fpw_module (self w) = Some m ->
  forward inputs kwinputs w
  = (let (r, v') :=
       module_call m inputs kwinputs (views_set h false (views w)) in
     (r, {| self := self w; views := v';
            trace := trace w ++ [use_unsharded_views h false;
                                 call_module (module_name m) inputs kwinputs] |})).
Proof.
  intros Hown Huop Hm. unfold forward, bind at 1.
  rewrite (flat_param_owned w h Hown).
  unfold bind at 1, bind at 1, self_getattr at 1, bind at 1, get, lift at 1.
  rewrite (getattr_own_use_orig_params _ false Huop).
  cbn [truthy negb].
  unfold bind at 1, self_getattr at 1, bind at 1, get, lift at 1.
  rewrite (getattr_own_handle w h Hown).
  unfold bind at 1, lift at 1. cbn [as_handle].
  rewrite use_unsharded_views_eval.
  rewrite (call_wrapped_eval _ m) by exact Hm.
  cbn [self views trace]. now rewrite <- app_assoc.
Qed.

Lemma forward_without_params (w : World) (m : Module) inputs kwinputs :
  has_params w = (Ok false, w) ->
  _fpw_module (self w) = Some m ->
  forward inputs kwinputs w
  = (let (r, v') := module_call m inputs kwinputs (views w) in
     (r, {| self := self w; views := v';
            trace := trace w ++ [call_module (module_name m) inputs kwinputs] |})).
Proof.
  intros Hno Hm. unfold forward, bind at 1, flat_param, bind at 1.
  rewrite Hno. unfold ret at 1. unfold bind at 1, ret at 1.
  now apply call_wrapped_eval.
Qed.

(** On a wrapper that owns a handle and has [use_orig_params = False],
    [forward] asks the handle once for the flattened representation with
    [as_params = False], then calls the wrapped module once with the same
    positional and keyword arguments, and returns what that call returns or
    raises; the wrapper object is unchanged.  On a wrapper whose [has_params]
    is false it only calls the wrapped module. *)
Theorem forward_uses_flat_param_then_delegates
    (w : World) (m : Module) (inputs : list Value)
    (kwinputs : list (string * Value)) :
  _fpw_module (self w) = Some m ->
  (forall h,
      _flat_param_handle (self w) = Some h ->
      _use_orig_params (self w) = Some false ->
      has_params w = (Ok true, w) /\
      forward inputs kwinputs w
      = (let (r, v') :=
           module_call m inputs kwinputs (views_set h false (views w)) in
         (r, {| self := self w; views := v';
                trace := trace w
                         ++ [use_unsharded_views h false;
                             call_module (module_name m) inputs kwinputs] |})))
  /\
  (has_params w = (Ok false, w) ->
   forward inputs kwinputs w
   = (let (r, v') := module_call m inputs kwinputs (views w) in
      (r, {| self := self w; views := v';
             trace := trace w
                      ++ [call_module (module_name m) inputs kwinputs] |}))).
Proof.
  intros Hm. split.
  - intros h Hown Huop. split; [now apply (has_params_owned w h)|].
    now apply forward_owned.
  - intros Hno. now apply forward_without_params.
Qed.

(** ** De-registration *)

(** C10: [_deregister_flat_param] returns normally in every world; the
    registry loses the entry for [flat_param] and nothing else, is unchanged
    when there was no such entry, and a second call changes nothing more.
    Hence entry into the scope of a wrapper that owns a handle reaches the
    block whether or not [flat_param] was registered. *)
Theorem deregister_flat_param_total_idempotent (w : World) :
  exists w',
    _deregister_flat_param w = (Ok tt, w') /\
    _parameters (self w') = delete "flat_param" (_parameters (self w)) /\
    _parameters (self w') !! "flat_param" = None /\
    (forall name, name <> "flat_param" ->
       _parameters (self w') !! name = _parameters (self w) !! name) /\
    (_parameters (self w) !! "flat_param" = None ->
     _parameters (self w') = _parameters (self w)) /\
    _deregister_flat_param w' = (Ok tt, w') /\
    (forall h, _flat_param_handle (self w) = Some h ->
       exists w1,
         unflatten_enter w = (Ok tt, w1) /\
         _parameters (self w1) = delete "flat_param" (_parameters (self w))).
Proof.
  rewrite _deregister_flat_param_eval. eexists. split; [reflexivity|].
  cbn [self]. unfold set_parameters at 1 2 3 4. cbn [_parameters].
  split; [reflexivity|]. split; [apply lookup_delete_eq|]. split.
  { intros name Hne. now apply lookup_delete_ne. }
  split; [apply delete_id|]. split.
  - rewrite _deregister_flat_param_eval. cbn [self views trace].
    unfold set_parameters.
    cbn [_fpw_module _parameters _state_dict_hooks _load_state_dict_pre_hooks
         _flat_param_handle _use_orig_params].
    now rewrite delete_delete_eq.
  - intros h Hown. rewrite (unflatten_enter_owned w h Hown).
    eexists. split; reflexivity.
Qed.

(** ** Attribute fallback *)

(** C9: [__getattr__] is what Python calls for a name that ordinary lookup
    on the wrapper does not find.  It serves a registered parameter and the
    sub-module [_fpw_module] itself; for every other name it asks the
    wrapped module, and the outcome of that lookup, the child's value or the
    child's own error, is its outcome unchanged. *)
Theorem getattr_falls_back_to_wrapped_module
    (o : FlattenParamsWrapper) (m : Module) (name : string) :
  _fpw_module o = Some m ->
  (forall v, _parameters o !! name = Some v -> __getattr__ o name = Ok v) /\
  (_parameters o !! name = None -> name = "_fpw_module" ->
   __getattr__ o name = Ok (VModule (module_name m))) /\
  (_parameters o !! name = None -> name <> "_fpw_module" ->
   __getattr__ o name = module_getattr m name /\
   (forall v, module_getattr m name = Ok v -> __getattr__ o name = Ok v) /\
   (forall e, module_getattr m name = Raise e ->
      __getattr__ o name = Raise e)).
Proof.
  intros Hm. unfold __getattr__, nn_Module___getattr__, module. rewrite Hm.
  split; [|split].
  - intros v Hv. now rewrite Hv.
  - intros Hpar ->. now rewrite Hpar.
  - intros Hpar Hname. rewrite Hpar.
    destruct (String.eqb_spec name "_fpw_module") as [?|_]; [contradiction|].
    unfold no_attribute. split; [reflexivity|].
    split; intros ? H; exact H.
Qed.

(** ** A wrapper without parameters *)

(** C6 fails on the code: [has_params] is [hasattr(self,
    "_flat_param_handle")], and [hasattr] goes through [__getattr__], which
    falls back to the wrapped module.  A wrapper built with an empty
    parameter list around a module that exposes [_flat_param_handle] (here
    another wrapper that does manage parameters) reports [has_params],
    returns the inner flattened parameter and hands out the inner handle
    instead of raising. *)
Theorem has_params_leaks_wrapped_handle :
  _flat_param_handle (self outer_world) = None /\
  has_params outer_world = (Ok true, outer_world) /\
  flat_param outer_world
    = (Ok (VTensor (FlatParameter [1; 2])), outer_world) /\
  handle outer_world
    = (Ok (VHandle (FlatParamHandle_new [1; 2] plain_module "cpu" [] false)),
       outer_world).
Proof. repeat split. Qed.

Lemma has_params_without_handle (w : World) (m : Module) (msg : string) :
  self w = constructed_empty m ->
  module_getattr m "_flat_param_handle" = Raise (AttributeError msg) ->
  has_params w = (Ok false, w).
Proof.
  intros Hself Hchild. unfold has_params, bind, get, lift, hasattr, getattr.
  rewrite Hself. unfold instance_attr.
  cbn [String.eqb Ascii.eqb Bool.eqb constructed_empty _flat_param_handle fmap
       option_fmap option_map].
  unfold __getattr__, nn_Module___getattr__, module, constructed_empty.
  cbn [_parameters _fpw_module String.eqb Ascii.eqb Bool.eqb].
  rewrite lookup_empty. unfold no_attribute. now rewrite Hchild.
Qed.

Lemma reachable_without_params (m : Module) (msg : string) (w0 w : World) :
  self w0 = constructed_empty m ->
  module_getattr m "_flat_param_handle" = Raise (AttributeError msg) ->
  reachable w0 w -> self w = constructed_empty m.
Proof.
  intros H0 Hchild Hreach. induction Hreach as
    [ | w inputs kwinputs r w' _ IH Hrun
      | w body r w' _ IH Hrun
      | w r w' _ IH Hrun | w r w' _ IH Hrun | w r w' _ IH Hrun
      | w key r w' _ IH Hrun
      | w f _ IH ].
  - exact H0.
  - pose proof (forward_keeps_self inputs kwinputs w) as Hk.
    rewrite Hrun in Hk. simpl in Hk. now rewrite Hk.
  - unfold unflatten_as_params, bind at 1, flat_param, bind at 1 in Hrun.
    rewrite (has_params_without_handle w m msg IH Hchild) in Hrun.
    unfold ret at 1 in Hrun.
    pose proof (keeps_self_lift_views body w) as Hk.
    rewrite Hrun in Hk. simpl in Hk. now rewrite Hk.
  - pose proof (has_params_pure w) as Hp. rewrite Hrun in Hp. simpl in Hp.
    now subst.
  - pose proof (flat_param_pure w) as Hp. rewrite Hrun in Hp. simpl in Hp.
    now subst.
  - pose proof (handle_pure w) as Hp. rewrite Hrun in Hp. simpl in Hp.
    now subst.
  - pose proof (getitem_pure key w) as Hp. rewrite Hrun in Hp. simpl in Hp.
    now subst.
  - exact IH.
Qed.

(** A wrapper built with an empty parameter list around a module that has
    no attribute [_flat_param_handle] manages no parameters for its whole
    life: [has_params] is false, [flat_param] is [None], [handle] raises,
    and none of them changes the world. *)
Lemma wrapper_without_params_for_life
    (m : Module) (device : string) (config : list string)
    (use_orig_params : bool) (v : Views) (msg : string) (w0 w : World) :
  FlattenParamsWrapper_new m [] device config use_orig_params v = (Ok tt, w0) ->
  module_getattr m "_flat_param_handle" = Raise (AttributeError msg) ->
  reachable w0 w ->
  has_params w = (Ok false, w) /\
  flat_param w = (Ok VNone, w) /\
  exists msg', handle w = (Raise (AssertionError msg'), w).
Proof.
  intros Hnew Hchild Hreach. rewrite new_without_params in Hnew.
  injection Hnew as <-.
  pose proof (reachable_without_params m msg
                {| self := constructed_empty m; views := v; trace := [] |} w
                eq_refl Hchild Hreach) as Hself.
  pose proof (has_params_without_handle w m msg Hself Hchild) as Hno.
  split; [exact Hno|]. split.
  - unfold flat_param, bind. now rewrite Hno.
  - unfold handle, bind, get. unfold has_params, bind, get, lift in Hno.
    unfold lift at 1.
    destruct (hasattr (self w) "_flat_param_handle") as [[|]|e];
      try discriminate.
    unfold raise. eauto.
Qed.

(** ** The wrapper in concrete worlds *)

Lemma unflatten_as_params_exception_safe_witness :
  exists w',
    unflatten_as_params (lift_views failing_block) flat_world
    = (Raise (Exception "RuntimeError" "boom"), w') /\
    _parameters (self w') = _parameters (self flat_world) /\
    _parameters (self w') !! "flat_param"
      = Some (VTensor (FlatParameter [1; 2])) /\
    views w' (FlatParamHandle_new [1; 2] linear_module "cpu" [] false) = false.
Proof.
  apply (unflatten_as_params_exception_safe linear_module [1; 2] "cpu" []
           no_views flat_world flat_world failing_block
           (Exception "RuntimeError" "boom")
           (views_set (FlatParamHandle_new [1; 2] linear_module "cpu" [] false)
              true no_views)).
  - discriminate.
  - reflexivity.
  - apply reach_new.
  - reflexivity.
Defined.

Lemma unflatten_as_params_empty_block_restores_witness :
  exists w',
    unflatten_as_params (ret tt) flat_world = (Ok tt, w') /\
    self w' = self flat_world /\
    _parameters (self flat_world) !! "flat_param"
      = Some (VTensor (FlatParameter [1; 2])) /\
    _parameters (self w') !! "flat_param"
      = _parameters (self flat_world) !! "flat_param" /\
    flat_param flat_world = (Ok (VTensor (FlatParameter [1; 2])), flat_world) /\
    flat_param w' = (Ok (VTensor (FlatParameter [1; 2])), w').
Proof.
  apply (unflatten_as_params_empty_block_restores linear_module [1; 2] "cpu" []
           no_views flat_world flat_world).
  - discriminate.
  - reflexivity.
  - apply reach_new.
Defined.

Lemma use_orig_params_never_toggles_registration_witness :
  _parameters (self orig_world) = ∅ /\
  exists w',
    unflatten_as_params (lift_views failing_block) orig_world
    = (Raise (Exception "RuntimeError" "boom"), w') /\
    self w' = self orig_world.
Proof.
  destruct (use_orig_params_never_toggles_registration linear_module [1; 2]
              "cpu" [] no_views orig_world orig_world)
    as (Hnew & _ & _ & _ & _ & Hscope).
  - discriminate.
  - reflexivity.
  - apply reach_new.
  - split; [exact Hnew|].
    destruct (Hscope failing_block) as (w' & Hrun & Hself & _).
    exists w'. split; [exact Hrun | exact Hself].
Defined.

Lemma forward_uses_flat_param_then_delegates_witness :
  (exists w',
      forward [VObject 5] [("scale", VBool true)] flat_world
      = (Ok (VObject 1), w') /\
      trace w'
      = [use_unsharded_views
           (FlatParamHandle_new [1; 2] linear_module "cpu" [] false) false;
         call_module "linear" [VObject 5] [("scale", VBool true)]]) /\
  (exists w',
      forward [VObject 5] [("scale", VBool true)] bare_world
      = (Ok (VObject 1), w') /\
      trace w' = [call_module "linear" [VObject 5] [("scale", VBool true)]]).
Proof.
  split.
  - destruct (forward_uses_flat_param_then_delegates flat_world linear_module
                [VObject 5] [("scale", VBool true)] eq_refl) as [Hflat _].
    destruct (Hflat (FlatParamHandle_new [1; 2] linear_module "cpu" [] false)
                eq_refl eq_refl) as [_ Hrun].
    eexists. split; [exact Hrun | reflexivity].
  - destruct (forward_uses_flat_param_then_delegates bare_world linear_module
                [VObject 5] [("scale", VBool true)] eq_refl) as [_ Hbare].
    eexists. split; [exact (Hbare eq_refl) | reflexivity].
Defined.

Lemma deregister_flat_param_total_idempotent_witness :
  exists w1,
    unflatten_enter flat_world = (Ok tt, w1) /\
    _parameters (self w1) !! "flat_param" = None.
Proof.
  destruct (deregister_flat_param_total_idempotent flat_world)
    as (w' & _ & _ & _ & _ & _ & _ & Henter).
  destruct (Henter (FlatParamHandle_new [1; 2] linear_module "cpu" [] false)
              eq_refl) as (w1 & Hrun & Hreg).
  exists w1. split; [exact Hrun|]. rewrite Hreg. apply lookup_delete_eq.
Defined.

Lemma getattr_falls_back_to_wrapped_module_witness :
  __getattr__ (self flat_world) "weight" = Ok (VTensor (OrigParameter 1)) /\
  __getattr__ (self flat_world) "bias" = Raise (AttributeError "bias").
Proof.
  split.
  - destruct (getattr_falls_back_to_wrapped_module (self flat_world)
                linear_module "weight" eq_refl) as (_ & _ & Hfb).
    destruct (Hfb eq_refl) as (_ & Hok & _); [discriminate|].
    now apply Hok.
  - destruct (getattr_falls_back_to_wrapped_module (self flat_world)
                linear_module "bias" eq_refl) as (_ & _ & Hfb).
    destruct (Hfb eq_refl) as (_ & _ & Herr); [discriminate|].
    now apply Herr.
Defined.

(** * Further properties of the hooks *)

(** ** Keys outside the prefix are never touched *)

Section dict_frame.
Context {V : Type}.
Implicit Types (d : dict V) (k x : string) (v : V).

Lemma dict_get_set_ne k x v d :
  k <> x -> dict_get x (dict_set k v d) = dict_get x d.
Proof.
  intros Hne. induction d as [|[k' v'] d IH]; simpl.
  - destruct (String.eqb_spec k x) as [?|_]; [contradiction | reflexivity].
  - destruct (String.eqb_spec k' k) as [->|Hk]; simpl.
    + destruct (String.eqb_spec k x) as [?|_]; [contradiction | reflexivity].
    + destruct (String.eqb_spec k' x) as [_|_]; [reflexivity | exact IH].
Qed.

Lemma dict_get_del_ne k x d :
  k <> x -> dict_get x (dict_del k d) = dict_get x d.
Proof.
  intros Hne. induction d as [|[k' v'] d IH]; simpl; [reflexivity|].
  destruct (String.eqb_spec k' k) as [->|Hk]; simpl.
  - destruct (String.eqb_spec k x) as [?|_]; [contradiction | exact IH].
  - destruct (String.eqb_spec k' x) as [_|_]; [reflexivity | exact IH].
Qed.

(** A loop keeps whatever each of its rounds keeps, on every path. *)
Lemma for_each_keeps {S X} (Q : S -> Prop) (xs : list X)
    (body : X -> St S unit) (s : S) :
  (forall a s', Q s' -> Q (body a s').2) -> Q s -> Q (for_each xs body s).2.
Proof.
  intros Hbody. revert s. induction xs as [|a xs IH]; intros s Hs; [exact Hs|].
  simpl. unfold bind. specialize (Hbody a s Hs).
  destruct (body a s) as [[[]|e] s1]; simpl in *; [now apply IH | exact Hbody].
Qed.

Lemma move_key_frame old new key x d :
  startswith x old = false -> startswith x new = false ->
  dict_get x (move_key old new key d).2 = dict_get x d.
Proof.
  intros Hold Hnew. unfold move_key.
  destruct (startswith key old) eqn:Hkey; simpl; [|reflexivity].
  assert (key <> x) as Hkx by (intros ->; congruence).
  assert (new +:+ string_drop (String.length old) key <> x) as Hnx.
  { intros <-. now rewrite startswith_app in Hnew. }
  unfold bind, dict_getitem, dict_setitem, modify, dict_delitem.
  destruct (dict_get key d) as [v|]; simpl; [|reflexivity].
  destruct (dict_get key (dict_set _ v d)); simpl.
  - now rewrite dict_get_del_ne, dict_get_set_ne.
  - now rewrite dict_get_set_ne.
Qed.

Lemma _replace_by_prefix_frame old new x d :
  startswith x old = false -> startswith x new = false ->
  dict_get x (_replace_by_prefix old new d).2 = dict_get x d.
Proof.
  intros Hold Hnew. unfold _replace_by_prefix.
  destruct (String.eqb old new); [reflexivity|].
  unfold bind, dict_keys.
  apply (for_each_keeps (fun s => dict_get x s = dict_get x d));
    [|reflexivity].
  intros key s Hs. now rewrite move_key_frame.
Qed.

End dict_frame.

Lemma startswith_longer (x p q : string) :
  startswith x p = false -> startswith x (p +:+ q) = false.
Proof.
  intros Hp. destruct (startswith x (p +:+ q)) eqn:E; [|reflexivity].
  apply startswith_app_r in E. congruence.
Qed.

(** The export hook leaves alone every key that does not begin with its
    prefix: same presence, same value, whatever else the mapping holds. *)
Theorem post_state_dict_hook_keeps_outside_keys {V} (prefix x : string)
    (d : dict V) :
  startswith x prefix = false ->
  dict_get x (_post_state_dict_hook prefix d).2 = dict_get x d.
Proof.
  intros Hx. unfold _post_state_dict_hook, bind.
  pose proof (_replace_by_prefix_frame (prefix +:+ FPW_MODULE +:+ ".") prefix
                x d (startswith_longer _ _ _ Hx) Hx) as Hframe.
  destruct (_replace_by_prefix _ _ d) as [[[]|e] d1]; exact Hframe.
Qed.

Lemma post_state_dict_hook_keeps_outside_keys_witness :
  dict_get "c.x"
    (_post_state_dict_hook "a.b."
       [("a.b._fpw_module.weight", 1); ("c.x", 3)]).2
  = Some 3.
Proof.
  now rewrite (post_state_dict_hook_keeps_outside_keys "a.b." "c.x").
Defined.

(** The import hook leaves alone every key that does not begin with its
    prefix, also in the mapping that it leaves behind when it raises. *)
Theorem pre_load_state_dict_hook_keeps_outside_keys {V} (prefix x : string)
    (d : dict V) :
  startswith x prefix = false ->
  dict_get x (_pre_load_state_dict_hook prefix d).2 = dict_get x d.
Proof.
  intros Hx. unfold _pre_load_state_dict_hook, bind at 1.
  pose proof (_replace_by_prefix_frame prefix (prefix +:+ FPW_MODULE +:+ ".")
                x d Hx (startswith_longer _ _ _ Hx)) as Hframe.
  destruct (_replace_by_prefix _ _ d) as [[[]|e] d1]; [|exact Hframe].
  simpl in Hframe. unfold bind, dict_keys. rewrite <- Hframe.
  apply (for_each_keeps (fun s => dict_get x s = dict_get x d1));
    [|reflexivity].
  intros k s Hs. unfold lift_flat_param.
  destruct (startswith k _) eqn:Hk; [|exact Hs].
  destruct (startswith (last_part k) FLAT_PARAM); [|exact Hs].
  rewrite _replace_by_prefix_frame; [exact Hs | |].
  - destruct (startswith x k) eqn:E; [|reflexivity].
    apply startswith_app_r in Hk.
    pose proof (startswith_trans x k prefix E Hk). congruence.
  - now apply startswith_longer.
Qed.

Lemma pre_load_state_dict_hook_keeps_outside_keys_witness :
  dict_get "c.x"
    (_pre_load_state_dict_hook "a.b."
       [("a.b.flat_param.weight", 1); ("c.x", 3)]).2
  = Some 3.
Proof.
  now rewrite (pre_load_state_dict_hook_keeps_outside_keys "a.b." "c.x").
Defined.

(** ** When the hooks fail *)

(** On a mapping with pairwise distinct keys the export hook never raises,
    name clashes or not: it returns the mapping it has mutated, whose keys
    are still pairwise distinct. *)
Theorem post_state_dict_hook_never_raises {V} (prefix : string) (d : dict V) :
  dict_wf d ->
  exists d', _post_state_dict_hook prefix d = (Ok d', d') /\ dict_wf d'.
Proof.
  intros Hwf.
  destruct (_replace_by_prefix_total (prefix +:+ FPW_MODULE +:+ ".") prefix d)
    as (d' & Hrun & Hwf'); [|exact Hwf|].
  - apply string_app_neq_self. discriminate.
  - exists d'. split; [|exact Hwf'].
    unfold _post_state_dict_hook, bind, get. now rewrite Hrun.
Qed.

Lemma post_state_dict_hook_never_raises_witness :
  exists d',
    _post_state_dict_hook "a.b."
      [("a.b._fpw_module.x", 1); ("a.b.x", 2)] = (Ok d', d') /\
    dict_wf d'.
Proof.
  apply (post_state_dict_hook_never_raises "a.b."
           [("a.b._fpw_module.x", 1); ("a.b.x", 2)]).
  unfold dict_wf. decide_closed.
Defined.

Lemma lift_flat_loop_succeeds {V} (prefix : string) (ks : list string)
    (d : dict V) :
  dict_wf d ->
  (forall k, k ∈ ks ->
     startswith k (prefix +:+ "_fpw_module.flat_param") = true ->
     startswith (last_part k) "flat_param" = true) ->
  exists d',
    for_each ks (lift_flat_param prefix (prefix +:+ "_fpw_module.flat_param")) d
    = (Ok tt, d') /\ dict_wf d'.
Proof.
  revert d. induction ks as [|k ks IH]; intros d Hwf Hok.
  - exists d. now split.
  - simpl. unfold bind, lift_flat_param at 1.
    change FLAT_PARAM with "flat_param".
    destruct (startswith k (prefix +:+ "_fpw_module.flat_param")) eqn:Hk.
    + rewrite (Hok k (list_elem_of_here _ _) Hk).
      destruct (_replace_by_prefix_total k (prefix +:+ last_part k) d)
        as (d1 & Hd1 & Hwf1); [now apply flat_key_neq_target | exact Hwf|].
      rewrite Hd1. apply IH; [exact Hwf1|].
      intros k' Hk'. apply Hok. now apply list_elem_of_further.
    + apply IH; [exact Hwf|].
      intros k' Hk'. apply Hok. now apply list_elem_of_further.
Qed.

(** On a mapping with pairwise distinct keys the import hook succeeds
    exactly when, after the push-down, every key under
    [P + "_fpw_module.flat_param"] ends in a segment that begins with
    [flat_param]; otherwise its outcome is the assertion error, never
    another exception. *)
Theorem pre_load_state_dict_hook_outcome {V} (prefix : string)
    (d d1 : dict V) :
  dict_wf d ->
  _replace_by_prefix prefix (prefix +:+ "_fpw_module.") d = (Ok tt, d1) ->
  ((exists d', _pre_load_state_dict_hook prefix d = (Ok tt, d') /\ dict_wf d')
   <->
   (forall k, k ∈ keys d1 ->
      startswith k (prefix +:+ "_fpw_module.flat_param") = true ->
      startswith (last_part k) "flat_param" = true)) /\
  ((exists d', _pre_load_state_dict_hook prefix d = (Ok tt, d')) \/
   (exists msg d',
       _pre_load_state_dict_hook prefix d = (Raise (AssertionError msg), d'))).
Proof.
  intros Hwf Hd1.
  assert (dict_wf d1) as Hwf1.
  { destruct (_replace_by_prefix_total prefix (prefix +:+ "_fpw_module.") d)
      as (d2 & Hd2 & Hwf2); [|exact Hwf|].
    - intros Heq. symmetry in Heq. revert Heq.
      apply string_app_neq_self. discriminate.
    - rewrite Hd1 in Hd2. now injection Hd2 as ->. }
  assert (_pre_load_state_dict_hook prefix d
          = for_each (keys d1)
              (lift_flat_param prefix (prefix +:+ "_fpw_module.flat_param")) d1)
    as Hrun.
  { unfold _pre_load_state_dict_hook, bind at 1.
    change (prefix +:+ FPW_MODULE +:+ ".") with (prefix +:+ "_fpw_module.").
    rewrite Hd1. reflexivity. }
  assert ((forall k, k ∈ keys d1 ->
             startswith k (prefix +:+ "_fpw_module.flat_param") = true ->
             startswith (last_part k) "flat_param" = true) \/
          (exists k, k ∈ keys d1 /\
             startswith k (prefix +:+ "_fpw_module.flat_param") = true /\
             startswith (last_part k) "flat_param" = false)) as Hcases.
  { clear. induction (keys d1) as [|k ks IH].
    - left. intros k Hk. now apply elem_of_nil in Hk.
    - destruct IH as [IH|(k' & Hin & Hk' & Hl')].
      + destruct (startswith k (prefix +:+ "_fpw_module.flat_param")) eqn:Hk.
        * destruct (startswith (last_part k) "flat_param") eqn:Hl.
          -- left. intros x Hx Hxp.
             apply elem_of_cons in Hx as [->|Hx]; [exact Hl | now apply IH].
          -- right. exists k. split; [apply list_elem_of_here | now split].
        * left. intros x Hx Hxp.
          apply elem_of_cons in Hx as [->|Hx]; [congruence | now apply IH].
      + right. exists k'. split; [now apply list_elem_of_further | now split]. }
  split.
  - split.
    + intros (d' & Hok & _) k Hin Hk.
      destruct (startswith (last_part k) "flat_param") eqn:Hl; [reflexivity|].
      destruct (lift_flat_loop_raises prefix (keys d1) d1 Hwf1)
        as (msg & d2 & Hraise); [exists k; auto|].
      rewrite Hrun, Hraise in Hok. discriminate.
    + intros Hall. rewrite Hrun. now apply lift_flat_loop_succeeds.
  - destruct Hcases as [Hall|Hbad].
    + left. destruct (lift_flat_loop_succeeds prefix (keys d1) d1 Hwf1 Hall)
        as (d' & Hok & _). exists d'. now rewrite Hrun.
    + right. rewrite Hrun. now apply lift_flat_loop_raises.
Qed.

Lemma pre_load_state_dict_hook_outcome_witness :
  exists d',
    _pre_load_state_dict_hook "a.b."
      [("a.b.flat_param_0", 1); ("a.b.other", 2)] = (Ok tt, d')
    /\ dict_wf d'.
Proof.
  destruct (pre_load_state_dict_hook_outcome "a.b."
              [("a.b.flat_param_0", 1); ("a.b.other", 2)]
              [("a.b._fpw_module.flat_param_0", 1);
               ("a.b._fpw_module.other", 2)])
    as [[_ Hok] _].
  - unfold dict_wf. decide_closed.
  - vm_compute. reflexivity.
  - apply Hok. intros k Hin Hk. unfold keys in Hin. simpl in Hin.
    rewrite !elem_of_cons, elem_of_nil in Hin.
    destruct Hin as [->|[->|[]]]; [reflexivity|].
    vm_compute in Hk. discriminate Hk.
Defined.

(** ** Export and import undo each other *)

Lemma renamed_inj (old new x y : string) :
  has_prefix old x -> has_prefix old y ->
  renamed old new x = renamed old new y -> x = y.
Proof.
  unfold has_prefix, renamed. intros Hx Hy Heq.
  apply string_app_inj_l in Heq.
  rewrite (startswith_split x old Hx), (startswith_split y old Hy).
  now rewrite Heq.
Qed.

Lemma collision_free_intro {V} (old new : string) (d : dict V) :
  dict_wf d ->
  (forall x, x ∈ keys d -> has_prefix old x -> renamed old new x ∉ keys d) ->
  collision_free old new d.
Proof.
  unfold dict_wf, collision_free. intros Hwf Hfresh.
  apply NoDup_app. split; [exact Hwf|]. split.
  - intros x Hx Hin. apply list_elem_of_fmap in Hin as (y & -> & Hy).
    apply list_elem_of_filter in Hy as [Hp Hy]. now apply (Hfresh y).
  - apply NoDup_fmap_2_strong; [|now apply NoDup_filter].
    intros x y Hx Hy. apply list_elem_of_filter in Hx as [Hx _].
    apply list_elem_of_filter in Hy as [Hy _]. now apply renamed_inj.
Qed.

Lemma fmap_id_on {A} (f : A -> A) (l : list A) :
  (forall x, x ∈ l -> f x = x) -> f <$> l = l.
Proof.
  induction l as [|a l IH]; intros H; [reflexivity|].
  rewrite fmap_cons, H by apply list_elem_of_here.
  f_equal. apply IH. intros x Hx. apply H. now apply list_elem_of_further.
Qed.

Lemma flat_param_not_fpw_module (s : string) :
  startswith s "flat_param" = true -> startswith s "_fpw_module." = false.
Proof.
  intros H. apply startswith_split in H. rewrite H. sapp. reflexivity.
Qed.

Section round_trip.
Context (prefix : string).

Local Abbreviation pfm := (prefix +:+ "_fpw_module.").
Local Abbreviation old := (prefix +:+ "_fpw_module.flat_param").
Local Abbreviation new := (prefix +:+ "flat_param").

(** The final name of a key under the import hook, and under the export
    hook. *)
Local Abbreviation imp := (fun k => rename_key old new (rename_key prefix pfm k)).
Local Abbreviation exp := (rename_key pfm prefix).

Lemma internal_key_cases k :
  internal_key prefix k = true ->
  startswith k prefix = false \/
  (exists s, k = prefix +:+ s /\ startswith s "flat_param" = true /\
             nodot s = true) \/
  (exists rest, k = pfm +:+ rest /\ startswith rest "flat_param" = false /\
                startswith rest "_fpw_module." = false).
Proof.
  unfold internal_key. destruct (startswith k prefix) eqn:Hk; [|now left].
  intros H. right. apply startswith_split in Hk.
  set (s := string_drop (String.length prefix) k) in *. clearbody s. subst k.
  apply orb_prop in H as [H|H].
  - apply andb_prop in H as [H1 H2]. left. now exists s.
  - apply andb_prop in H as [H H3]. apply andb_prop in H as [H1 H2].
    apply negb_true_iff in H2, H3. right.
    exists (string_drop 12 s). repeat split; try assumption.
    rewrite string_app_assoc. f_equal.
    exact (startswith_split s "_fpw_module." H1).
Qed.

Lemma external_key_cases k :
  external_key prefix k = true ->
  startswith k prefix = false \/
  (exists s, k = prefix +:+ s /\ startswith s "flat_param" = true /\
             nodot s = true) \/
  (exists s, k = prefix +:+ s /\ startswith s "flat_param" = false /\
             startswith s "_fpw_module." = false).
Proof.
  unfold external_key. destruct (startswith k prefix) eqn:Hk; [|now left].
  intros H. right. apply startswith_split in Hk.
  set (s := string_drop (String.length prefix) k) in *. clearbody s. subst k.
  destruct (startswith s "flat_param") eqn:Hs.
  - left. now exists s.
  - apply negb_true_iff in H. right. now exists s.
Qed.

Lemma external_key_slot s :
  startswith s "flat_param" = true -> nodot s = true ->
  external_key prefix (prefix +:+ s) = true.
Proof.
  intros H1 H2. unfold external_key.
  now rewrite startswith_app, string_drop_app, H1.
Qed.

Lemma external_key_field s :
  startswith s "flat_param" = false -> startswith s "_fpw_module." = false ->
  external_key prefix (prefix +:+ s) = true.
Proof.
  intros H1 H2. unfold external_key.
  now rewrite startswith_app, string_drop_app, H1, H2.
Qed.

Lemma internal_key_slot s :
  startswith s "flat_param" = true -> nodot s = true ->
  internal_key prefix (prefix +:+ s) = true.
Proof.
  intros H1 H2. unfold internal_key.
  now rewrite startswith_app, string_drop_app, H1, H2.
Qed.

Lemma internal_key_child rest :
  startswith rest "flat_param" = false ->
  startswith rest "_fpw_module." = false ->
  internal_key prefix (pfm +:+ rest) = true.
Proof.
  intros H1 H2. unfold internal_key. rewrite string_app_assoc.
  rewrite startswith_app, string_drop_app.
  rewrite (startswith_app "_fpw_module." rest).
  rewrite (string_drop_app "_fpw_module." rest : string_drop 12 _ = _).
  rewrite H1, H2. now rewrite orb_true_r.
Qed.

Lemma exp_outside k : startswith k prefix = false -> exp k = k.
Proof.
  intros Hk. apply rename_key_other. unfold has_prefix.
  rewrite startswith_longer by exact Hk. discriminate.
Qed.

Lemma exp_slot s : startswith s "flat_param" = true -> exp (prefix +:+ s) = prefix +:+ s.
Proof.
  intros Hs. apply rename_key_other. unfold has_prefix.
  rewrite startswith_cancel, flat_param_not_fpw_module by exact Hs. discriminate.
Qed.

Lemma exp_child rest : exp (pfm +:+ rest) = prefix +:+ rest.
Proof.
  rewrite rename_key_prefix by apply startswith_app.
  unfold renamed. now rewrite string_drop_app.
Qed.

(** Key by key, import undoes export on internal names, and export undoes
    import on external names. *)
Lemma imp_exp k :
  internal_key prefix k = true ->
  external_key prefix (exp k) = true /\ imp (exp k) = k.
Proof.
  intros H. apply internal_key_cases in H
    as [Hk|[(s & -> & Hs & Hnd)|(rest & -> & Hr1 & Hr2)]].
  - rewrite exp_outside by exact Hk. split.
    + unfold external_key. now rewrite Hk.
    + now apply final_key_outside.
  - rewrite exp_slot by exact Hs. split.
    + now apply external_key_slot.
    + now apply final_key_flat.
  - rewrite exp_child. split.
    + now apply external_key_field.
    + now apply final_key_child.
Qed.

Lemma exp_imp k :
  external_key prefix k = true ->
  internal_key prefix (imp k) = true /\ exp (imp k) = k.
Proof.
  intros H. apply external_key_cases in H
    as [Hk|[(s & -> & Hs & Hnd)|(s & -> & Hs1 & Hs2)]].
  - rewrite final_key_outside by exact Hk. split.
    + unfold internal_key. now rewrite Hk.
    + now apply exp_outside.
  - rewrite final_key_flat by exact Hs. split.
    + now apply internal_key_slot.
    + now apply exp_slot.
  - rewrite final_key_child by exact Hs1. split.
    + now apply internal_key_child.
    + apply exp_child.
Qed.

End round_trip.

Section round_trip_dicts.
Context {V : Type} (prefix : string).
Implicit Types (d : dict V) (k : string).

Local Abbreviation pfm := (prefix +:+ "_fpw_module.").
Local Abbreviation old := (prefix +:+ "_fpw_module.flat_param").
Local Abbreviation new := (prefix +:+ "flat_param").

Lemma internal_keys_collision_free d :
  dict_wf d -> (forall k, k ∈ keys d -> internal_key prefix k = true) ->
  collision_free pfm prefix d.
Proof.
  intros Hwf Hint. apply collision_free_intro; [exact Hwf|].
  intros x Hx Hp Hz. pose proof (Hint x Hx) as Hix. pose proof (Hint _ Hz) as Hiz.
  unfold has_prefix in Hp. pose proof (startswith_split x pfm Hp) as Hxs.
  unfold renamed in *.
  set (rest := string_drop (String.length pfm) x) in *. clearbody rest. subst x.
  clear Hx Hp Hz.
  assert (startswith rest "flat_param" = false /\
          startswith rest "_fpw_module." = false) as [Hr1 Hr2].
  { apply internal_key_cases in Hix
      as [Hk|[(s & Hs & Hfp & _)|(rest' & Hs & H1 & H2)]].
    - rewrite string_app_assoc, startswith_app in Hk. discriminate.
    - rewrite string_app_assoc in Hs. apply string_app_inj_l in Hs. subst s.
      apply flat_param_not_fpw_module in Hfp.
      rewrite startswith_app in Hfp. discriminate.
    - apply string_app_inj_l in Hs. now subst rest'. }
  apply internal_key_cases in Hiz
    as [Hk|[(s & Hs & Hfp & _)|(rest' & Hs & _ & _)]].
  - rewrite startswith_app in Hk. discriminate.
  - apply string_app_inj_l in Hs. subst s. congruence.
  - rewrite string_app_assoc in Hs. apply string_app_inj_l in Hs. subst rest.
    rewrite startswith_app in Hr2. discriminate.
Qed.

Lemma external_keys_collision_free d :
  dict_wf d -> (forall k, k ∈ keys d -> external_key prefix k = true) ->
  collision_free prefix pfm d.
Proof.
  intros Hwf Hext. apply collision_free_intro; [exact Hwf|].
  intros x Hx Hp Hz. pose proof (Hext _ Hz) as Hez.
  unfold has_prefix in Hp. unfold renamed in *.
  set (s := string_drop (String.length prefix) x) in *. clearbody s.
  rewrite string_app_assoc in Hez.
  apply external_key_cases in Hez
    as [Hk|[(s' & Hs & Hfp & _)|(s' & Hs & _ & Hfm)]].
  - rewrite startswith_app in Hk. discriminate.
  - apply string_app_inj_l in Hs. subst s'.
    apply flat_param_not_fpw_module in Hfp.
    rewrite startswith_app in Hfp. discriminate.
  - apply string_app_inj_l in Hs. subst s'.
    rewrite startswith_app in Hfm. discriminate.
Qed.

Lemma external_keys_slots d :
  (forall k, k ∈ keys d -> external_key prefix k = true) ->
  forall k, k ∈ keys d -> startswith k new = true ->
    nodot (string_drop (String.length prefix) k) = true.
Proof.
  intros Hext k Hk Hfp. apply Hext, external_key_cases in Hk
    as [Hk|[(s & -> & _ & Hnd)|(s & -> & Hs & _)]].
  - apply startswith_app_r in Hfp. congruence.
  - now rewrite string_drop_app.
  - rewrite startswith_cancel in Hfp. congruence.
Qed.

Lemma keys_of_renamed (f : string -> string) d d' k :
  d' ≡ₚ (λ kv : string * V, (f kv.1, kv.2)) <$> d ->
  k ∈ keys d' -> exists k0, k0 ∈ keys d /\ k = f k0.
Proof.
  intros Hperm Hk. unfold keys in Hk. rewrite Hperm in Hk.
  rewrite <- list_fmap_compose in Hk.
  apply list_elem_of_fmap in Hk as ([k0 v] & -> & Hin).
  exists k0. split; [|reflexivity].
  unfold keys. apply list_elem_of_fmap. now exists (k0, v).
Qed.

Lemma renamed_back (f g : string -> string) d :
  (forall k, k ∈ keys d -> g (f k) = k) ->
  (λ kv : string * V, (g kv.1, kv.2))
    <$> ((λ kv : string * V, (f kv.1, kv.2)) <$> d) = d.
Proof.
  intros H. rewrite <- list_fmap_compose. apply fmap_id_on.
  intros [k v] Hin. simpl. f_equal. apply H.
  unfold keys. apply list_elem_of_fmap. now exists (k, v).
Qed.

Lemma fmap_rename_compose (f g : string -> string) d :
  (λ kv : string * V, (g kv.1, kv.2))
    <$> ((λ kv : string * V, (f kv.1, kv.2)) <$> d)
  = (λ kv : string * V, (g (f kv.1), kv.2)) <$> d.
Proof. now rewrite <- list_fmap_compose. Qed.

Lemma export_run d :
  dict_wf d -> (forall k, k ∈ keys d -> internal_key prefix k = true) ->
  exists d1,
    _post_state_dict_hook prefix d = (Ok d1, d1) /\ dict_wf d1 /\
    d1 ≡ₚ rename_keys pfm prefix d.
Proof.
  intros Hwf Hint.
  pose proof (internal_keys_collision_free d Hwf Hint) as Hcf.
  exists (moved pfm prefix d). split; [|split].
  - unfold _post_state_dict_hook, bind, get.
    change (prefix +:+ FPW_MODULE +:+ ".") with pfm.
    rewrite (_replace_by_prefix_exact pfm prefix d); [reflexivity | | exact Hcf].
    apply string_app_neq_self. discriminate.
  - now apply moved_wf.
  - apply moved_Permutation.
Qed.

Lemma import_run d :
  dict_wf d -> (forall k, k ∈ keys d -> external_key prefix k = true) ->
  exists d1,
    _pre_load_state_dict_hook prefix d = (Ok tt, d1) /\ dict_wf d1 /\
    d1 ≡ₚ rename_keys old new (rename_keys prefix pfm d).
Proof.
  intros Hwf Hext.
  apply pre_load_hook_permutation.
  - now apply external_keys_collision_free.
  - now apply external_keys_slots.
Qed.

End round_trip_dicts.

(** Exporting and then importing gives the mapping back: for a mapping
    whose keys are pairwise distinct and are internal names for the prefix,
    the export hook succeeds, the import hook succeeds on its result, and
    the final mapping has the same entries as the first. *)
Theorem export_then_import_restores {V} (prefix : string) (d : dict V) :
  dict_wf d ->
  (forall k, k ∈ keys d -> internal_key prefix k = true) ->
  exists d1 d2,
    _post_state_dict_hook prefix d = (Ok d1, d1) /\
    _pre_load_state_dict_hook prefix d1 = (Ok tt, d2) /\
    d2 ≡ₚ d.
Proof.
  intros Hwf Hint.
  destruct (export_run prefix d Hwf Hint) as (d1 & Hrun1 & Hwf1 & Hp1).
  assert (forall k, k ∈ keys d1 -> external_key prefix k = true) as Hext.
  { intros k Hk. unfold rename_keys in Hp1.
    destruct (keys_of_renamed _ d d1 k Hp1 Hk) as (k0 & Hk0 & ->).
    now apply imp_exp, Hint. }
  destruct (import_run prefix d1 Hwf1 Hext) as (d2 & Hrun2 & _ & Hp2).
  exists d1, d2. split; [exact Hrun1|]. split; [exact Hrun2|].
  rewrite Hp2. unfold rename_keys. rewrite Hp1.
  rewrite (fmap_rename_compose (rename_key prefix (prefix +:+ "_fpw_module."))).
  match goal with |- ?X ≡ₚ d => assert (X = d) as ->; [|reflexivity] end.
  apply (renamed_back
           (rename_key (prefix +:+ "_fpw_module.") prefix)
           (fun k => rename_key (prefix +:+ "_fpw_module.flat_param")
                       (prefix +:+ "flat_param")
                       (rename_key prefix (prefix +:+ "_fpw_module.") k))).
  intros k Hk. now apply imp_exp, Hint.
Qed.

(** Importing and then exporting gives the mapping back: for a mapping
    whose keys are pairwise distinct and are external names for the prefix,
    both hooks succeed and the final mapping has the same entries as the
    first. *)
Theorem import_then_export_restores {V} (prefix : string) (d : dict V) :
  dict_wf d ->
  (forall k, k ∈ keys d -> external_key prefix k = true) ->
  exists d1 d2,
    _pre_load_state_dict_hook prefix d = (Ok tt, d1) /\
    _post_state_dict_hook prefix d1 = (Ok d2, d2) /\
    d2 ≡ₚ d.
Proof.
  intros Hwf Hext.
  destruct (import_run prefix d Hwf Hext) as (d1 & Hrun1 & Hwf1 & Hp1).
  assert (d1 ≡ₚ (λ kv : string * V,
                   (rename_key (prefix +:+ "_fpw_module.flat_param")
                      (prefix +:+ "flat_param")
                      (rename_key prefix (prefix +:+ "_fpw_module.") kv.1),
                    kv.2)) <$> d) as Hp1'.
  { rewrite Hp1. unfold rename_keys. now rewrite fmap_rename_compose. }
  assert (forall k, k ∈ keys d1 -> internal_key prefix k = true) as Hint.
  { intros k Hk.
    destruct (keys_of_renamed
                (fun k => rename_key (prefix +:+ "_fpw_module.flat_param")
                            (prefix +:+ "flat_param")
                            (rename_key prefix (prefix +:+ "_fpw_module.") k))
                d d1 k Hp1' Hk) as (k0 & Hk0 & ->).
    now apply exp_imp, Hext. }
  destruct (export_run prefix d1 Hwf1 Hint) as (d2 & Hrun2 & _ & Hp2).
  exists d1, d2. split; [exact Hrun1|]. split; [exact Hrun2|].
  rewrite Hp2. unfold rename_keys. rewrite Hp1'.
  match goal with |- ?X ≡ₚ d => assert (X = d) as ->; [|reflexivity] end.
  apply (renamed_back
           (fun k => rename_key (prefix +:+ "_fpw_module.flat_param")
                       (prefix +:+ "flat_param")
                       (rename_key prefix (prefix +:+ "_fpw_module.") k))
           (rename_key (prefix +:+ "_fpw_module.") prefix)).
  intros k Hk. now apply exp_imp, Hext.
Qed.

Ltac decide_keys :=
  let k := fresh "k" in let Hin := fresh "Hin" in
  intros k Hin; unfold keys in Hin; simpl in Hin;
  rewrite ?elem_of_cons, ?elem_of_nil in Hin;
  repeat (destruct Hin as [->|Hin]; [reflexivity|]); destruct Hin.

Lemma export_then_import_restores_witness :
  exists d1 d2,
    _post_state_dict_hook "a.b."
      [("a.b.flat_param", 1); ("a.b._fpw_module.weight", 2); ("c.x", 3)]
    = (Ok d1, d1) /\
    _pre_load_state_dict_hook "a.b." d1 = (Ok tt, d2) /\
    d2 ≡ₚ [("a.b.flat_param", 1); ("a.b._fpw_module.weight", 2); ("c.x", 3)].
Proof.
  apply (export_then_import_restores "a.b."
           [("a.b.flat_param", 1); ("a.b._fpw_module.weight", 2); ("c.x", 3)]).
  - unfold dict_wf. decide_closed.
  - decide_keys.
Defined.

Lemma import_then_export_restores_witness :
  exists d1 d2,
    _pre_load_state_dict_hook "a.b."
      [("a.b.flat_param", 1); ("a.b.weight", 2); ("c.x", 3)]
    = (Ok tt, d1) /\
    _post_state_dict_hook "a.b." d1 = (Ok d2, d2) /\
    d2 ≡ₚ [("a.b.flat_param", 1); ("a.b.weight", 2); ("c.x", 3)].
Proof.
  apply (import_then_export_restores "a.b."
           [("a.b.flat_param", 1); ("a.b.weight", 2); ("c.x", 3)]).
  - unfold dict_wf. decide_closed.
  - decide_keys.
Defined.

(** * Further properties of the wrapper *)

(** ** The scope, whatever the registry holds *)

(** For a wrapper that owns a handle, whatever its registry holds at entry
    and whatever the block does: the outcome of the scope is the outcome of
    the block, run with the views installed; on exit the views are
    retracted, [flat_param] is registered exactly when the handle does not
    use the original parameters, and nothing else in the wrapper has
    changed. *)
Theorem unflatten_as_params_outcome_and_registration {A}
    (w : World) (h : FlatParamHandle) (f : Views -> result A * Views) :
  _flat_param_handle (self w) = Some h ->
  exists w',
    unflatten_as_params (lift_views f) w
    = ((f (views_set h true (views w))).1, w') /\
    views w' h = false /\
    _parameters (self w') !! "flat_param"
    = (if handle_use_orig_params h then None
       else Some (VTensor (handle_flat_param h))) /\
    (forall name, name <> "flat_param" ->
       _parameters (self w') !! name = _parameters (self w) !! name) /\
    _fpw_module (self w') = _fpw_module (self w) /\
    _flat_param_handle (self w') = _flat_param_handle (self w) /\
    _use_orig_params (self w') = _use_orig_params (self w) /\
    _state_dict_hooks (self w') = _state_dict_hooks (self w) /\
    _load_state_dict_pre_hooks (self w') = _load_state_dict_pre_hooks (self w).
Proof.
  intros Hown. rewrite (unflatten_as_params_owned w h f Hown).
  destruct (f (views_set h true (views w))) as [r v'].
  eexists. split; [reflexivity|]. cbn [self views].
  split; [apply views_set_same|].
  unfold after_scope, set_parameters.
  destruct (handle_use_orig_params h);
    cbn [_fpw_module _parameters _state_dict_hooks _load_state_dict_pre_hooks
         _flat_param_handle _use_orig_params].
  - split; [apply lookup_delete_eq|]. split; [|repeat split].
    intros name Hne. now apply lookup_delete_ne.
  - split; [apply lookup_insert_eq|]. split; [|repeat split].
    intros name Hne. rewrite lookup_insert_ne by congruence.
    now apply lookup_delete_ne.
Qed.

Lemma unflatten_as_params_outcome_and_registration_witness :
  exists w',
    unflatten_as_params (lift_views failing_block) orig_world
    = (Raise (Exception "RuntimeError" "boom"), w') /\
    _parameters (self w') !! "flat_param" = None.
Proof.
  destruct (unflatten_as_params_outcome_and_registration orig_world
              (FlatParamHandle_new [1; 2] linear_module "cpu" [] true)
              failing_block eq_refl)
    as (w' & Hrun & _ & Hreg & _).
  exists w'. split; [exact Hrun | exact Hreg].
Defined.

(** ** A wrapper with parameters, for its whole life *)

(** A wrapper built over a non-empty parameter list keeps, between
    operations, what [__init__] established: [has_params] is true, [handle]
    and [flat_param] return the handle built at construction and its
    flattened parameter without changing anything, [module] is the module
    given, and [flat_param] is registered exactly when [use_orig_params] is
    false. *)
Theorem wrapper_with_params_for_life
    (m : Module) (params : list nat) (device : string)
    (config : list string) (use_orig_params : bool) (v : Views)
    (w0 w : World) :
  params <> [] ->
  FlattenParamsWrapper_new m params device config use_orig_params v
  = (Ok tt, w0) ->
  reachable w0 w ->
  has_params w = (Ok true, w) /\
  handle w
  = (Ok (VHandle (FlatParamHandle_new params m device config use_orig_params)),
     w) /\
  flat_param w = (Ok (VTensor (FlatParameter params)), w) /\
  module (self w) = Ok m /\
  _parameters (self w) !! "flat_param"
  = (if use_orig_params then None
     else Some (VTensor (FlatParameter params))).
Proof.
  intros Hne Hnew Hreach.
  pose proof (reachable_with_params _ _ _ _ _ w0 w
                (new_world _ _ _ _ _ _ _ Hne Hnew) Hreach) as Hself.
  set (h := FlatParamHandle_new params m device config use_orig_params).
  assert (_flat_param_handle (self w) = Some h) as Hown by now rewrite Hself.
  split; [now apply (has_params_owned w h)|].
  split; [now apply handle_owned|].
  split; [now apply (flat_param_owned w h)|].
  rewrite Hself. split; [reflexivity|].
  cbn [constructed _parameters]. destruct use_orig_params.
  - apply lookup_empty.
  - apply lookup_insert_eq.
Qed.

Lemma wrapper_with_params_for_life_witness :
  exists w,
    reachable flat_world w /\ trace w <> [] /\
    has_params w = (Ok true, w) /\
    _parameters (self w) !! "flat_param"
    = Some (VTensor (FlatParameter [1; 2])).
Proof.
  exists (forward [VObject 5] [] flat_world).2.
  assert (reachable flat_world (forward [VObject 5] [] flat_world).2) as Hreach.
  { eapply reach_forward; [apply reach_new|]. apply surjective_pairing. }
  destruct (wrapper_with_params_for_life linear_module [1; 2] "cpu" [] false
              no_views flat_world _ ltac:(discriminate) eq_refl Hreach)
    as (Hhas & _ & _ & _ & Hreg).
  split; [exact Hreach|]. split; [discriminate|]. split; [exact Hhas | exact Hreg].
Defined.

(** ** A wrapper without parameters: the scope *)

(** For the whole life of a wrapper built with an empty parameter list
    around a module that has no attribute [_flat_param_handle], the scope
    runs the block and nothing else: no call to a handle, no change to the
    registry. *)
Theorem unflatten_as_params_without_params {A}
    (m : Module) (device : string) (config : list string)
    (use_orig_params : bool) (v : Views) (msg : string) (w0 w : World)
    (body : M A) :
  FlattenParamsWrapper_new m [] device config use_orig_params v = (Ok tt, w0) ->
  module_getattr m "_flat_param_handle" = Raise (AttributeError msg) ->
  reachable w0 w ->
  unflatten_as_params body w = body w.
Proof.
  intros Hnew Hchild Hreach. rewrite new_without_params in Hnew.
  injection Hnew as <-.
  pose proof (reachable_without_params m msg
                {| self := constructed_empty m; views := v; trace := [] |} w
                eq_refl Hchild Hreach) as Hself.
  unfold unflatten_as_params, bind at 1, flat_param, bind at 1.
  now rewrite (has_params_without_handle w m msg Hself Hchild).
Qed.

Lemma unflatten_as_params_without_params_witness :
  unflatten_as_params (lift_views failing_block) bare_world
  = (Raise (Exception "RuntimeError" "boom"), bare_world).
Proof.
  rewrite (unflatten_as_params_without_params linear_module "cpu" [] false
             no_views "_flat_param_handle" bare_world bare_world);
    [reflexivity | reflexivity | reflexivity | apply reach_new].
Defined.

(** ** Registering and de-registering *)

(** For a wrapper that owns a handle: after de-registration [flat_param] is
    no longer served by the registry lookup of [nn.Module], yet the
    [flat_param] property still returns the flattened parameter; after
    registration the registry lookup serves that same tensor.  Registering
    what was just de-registered, and de-registering what was just
    registered, give the world back. *)
Theorem register_deregister_round_trip (w : World) (h : FlatParamHandle) :
  _flat_param_handle (self w) = Some h ->
  let fp := VTensor (handle_flat_param h) in
  exists wd wr,
    _deregister_flat_param w = (Ok tt, wd) /\
    _register_flat_param w = (Ok tt, wr) /\
    flat_param wd = (Ok fp, wd) /\
    nn_Module___getattr__ (self wd) "flat_param"
    = Raise (no_attribute "flat_param") /\
    nn_Module___getattr__ (self wr) "flat_param" = Ok fp /\
    (_parameters (self w) !! "flat_param" = Some fp ->
     _register_flat_param wd = (Ok tt, w)) /\
    (_parameters (self w) !! "flat_param" = None ->
     _deregister_flat_param wr = (Ok tt, w)).
Proof.
  intros Hown fp. rewrite _deregister_flat_param_eval.
  rewrite (_register_flat_param_owned w h Hown).
  eexists. eexists. split; [reflexivity|]. split; [reflexivity|].
  split; [now apply (flat_param_owned _ h)|]. split; [|split; [|split]].
  - unfold nn_Module___getattr__, set_parameters.
    cbn [self _parameters _fpw_module]. rewrite lookup_delete_eq.
    now destruct (_fpw_module (self w)).
  - unfold nn_Module___getattr__, set_parameters.
    cbn [self _parameters]. now rewrite lookup_insert_eq.
  - intros Hreg. rewrite (_register_flat_param_owned _ h) by exact Hown.
    destruct w as [o v t]. cbn [self views trace] in *. f_equal. f_equal.
    destruct o. unfold set_parameters.
    cbn [_fpw_module _parameters _state_dict_hooks _load_state_dict_pre_hooks
         _flat_param_handle _use_orig_params] in *.
    f_equal. now apply insert_delete_id.
  - intros Hreg. rewrite _deregister_flat_param_eval.
    destruct w as [o v t]. cbn [self views trace] in *. f_equal. f_equal.
    destruct o. unfold set_parameters.
    cbn [_fpw_module _parameters _state_dict_hooks _load_state_dict_pre_hooks
         _flat_param_handle _use_orig_params] in *.
    f_equal. now apply delete_insert_id.
Qed.

Lemma register_deregister_round_trip_witness :
  exists wd,
    _deregister_flat_param flat_world = (Ok tt, wd) /\
    flat_param wd = (Ok (VTensor (FlatParameter [1; 2])), wd) /\
    _register_flat_param wd = (Ok tt, flat_world).
Proof.
  destruct (register_deregister_round_trip flat_world
              (FlatParamHandle_new [1; 2] linear_module "cpu" [] false) eq_refl)
    as (wd & wr & Hd & _ & Hfp & _ & _ & Hback & _).
  exists wd. split; [exact Hd|]. split; [exact Hfp|].
  apply Hback. reflexivity.
Defined.

(** ** Construction *)

(** [__init__] succeeds for every argument list and calls no collaborator;
    it stores the module and installs both state-dict hooks whether or not
    there are parameters.  With an empty list it stops there: no handle, no
    [_use_orig_params] attribute, nothing registered.  Otherwise it stores a
    handle built with the flag given and registers [flat_param] exactly
    when the flag is false. *)
Theorem init_postconditions
    (m : Module) (params : list nat) (device : string)
    (config : list string) (use_orig_params : bool) (v : Views) :
  exists w0,
    FlattenParamsWrapper_new m params device config use_orig_params v
    = (Ok tt, w0) /\
    module (self w0) = Ok m /\
    _state_dict_hooks (self w0) = [post_state_dict_hook] /\
    _load_state_dict_pre_hooks (self w0) = [pre_load_state_dict_hook] /\
    views w0 = v /\ trace w0 = [] /\
    (params = [] ->
     _flat_param_handle (self w0) = None /\
     _use_orig_params (self w0) = None /\
     _parameters (self w0) = ∅) /\
    (params <> [] ->
     _flat_param_handle (self w0)
     = Some (FlatParamHandle_new params m device config use_orig_params) /\
     _use_orig_params (self w0) = Some use_orig_params /\
     (forall name,
        _parameters (self w0) !! name
        = if String.eqb name "flat_param" && negb use_orig_params
          then Some (VTensor (FlatParameter params)) else None)).
Proof.
  destruct params as [|p params].
  - rewrite new_without_params. eexists. split; [reflexivity|].
    repeat split; try reflexivity;
      match goal with Hne : [] <> [] |- _ => now contradiction Hne end.
  - rewrite new_with_params by discriminate. eexists. split; [reflexivity|].
    cbn [self views trace constructed module _fpw_module _state_dict_hooks
         _load_state_dict_pre_hooks _flat_param_handle _use_orig_params
         _parameters].
    repeat split; try reflexivity; try discriminate.
    intros name. destruct use_orig_params.
    + rewrite andb_false_r. apply lookup_empty.
    + rewrite andb_true_r.
      destruct (String.eqb_spec name "flat_param") as [->|Hne].
      * apply lookup_insert_eq.
      * rewrite lookup_insert_ne by congruence. apply lookup_empty.
Qed.

Lemma init_postconditions_witness :
  _flat_param_handle (self bare_world) = None /\
  _state_dict_hooks (self bare_world) = [post_state_dict_hook] /\
  _use_orig_params (self orig_world) = Some true /\
  _parameters (self orig_world) !! "flat_param" = None.
Proof.
  destruct (init_postconditions linear_module [] "cpu" [] false no_views)
    as (w0 & Hnew & _ & Hhooks & _ & _ & _ & Hempty & _).
  destruct (init_postconditions linear_module [1; 2] "cpu" [] true no_views)
    as (w1 & Hnew1 & _ & _ & _ & _ & _ & _ & Hfull).
  assert (w0 = bare_world) as -> by (unfold bare_world; now rewrite Hnew).
  assert (w1 = orig_world) as -> by (unfold orig_world; now rewrite Hnew1).
  destruct (Hempty eq_refl) as (Hh & _ & _).
  destruct (Hfull ltac:(discriminate)) as (_ & Huop & Hreg).
  split; [exact Hh|]. split; [exact Hhooks|]. split; [exact Huop|].
  now rewrite Hreg.
Defined.

(** ** [forward], the other paths *)

(** In every world, whatever [has_params] finds and whatever the wrapped
    module does, [forward] leaves the wrapper object as it is. *)
Theorem forward_never_changes_the_wrapper
    (inputs : list Value) (kwinputs : list (string * Value)) (w : World) :
  self (forward inputs kwinputs w).2 = self w.
Proof. apply forward_keeps_self. Qed.

(** On a wrapper that owns a handle and has [use_orig_params = True],
    [forward] does not call the handle: it calls the wrapped module with
    the same arguments and the views as they are, and returns what the
    module returns or raises. *)
Theorem forward_with_orig_params_only_delegates
    (w : World) (h : FlatParamHandle) (m : Module) (inputs : list Value)
    (kwinputs : list (string * Value)) :
  _flat_param_handle (self w) = Some h ->
  _use_orig_params (self w) = Some true ->
  _fpw_module (self w) = Some m ->
  forward inputs kwinputs w
  = (let (r, v') := module_call m inputs kwinputs (views w) in
     (r, {| self := self w; views := v';
            trace := trace w
                     ++ [call_module (module_name m) inputs kwinputs] |})).
Proof.
  intros Hown Huop Hm. unfold forward, bind at 1.
  rewrite (flat_param_owned w h Hown).
  unfold bind at 1, bind at 1, self_getattr at 1, bind at 1, get, lift at 1.
  rewrite (getattr_own_use_orig_params _ true Huop).
  cbn [truthy negb]. unfold ret at 1.
  now apply call_wrapped_eval.
Qed.

Lemma forward_with_orig_params_only_delegates_witness :
  exists w',
    forward [VObject 5] [] orig_world = (Ok (VObject 1), w') /\
    trace w' = [call_module "linear" [VObject 5] []].
Proof.
  eexists. split.
  - apply (forward_with_orig_params_only_delegates orig_world
             (FlatParamHandle_new [1; 2] linear_module "cpu" [] true)
             linear_module [VObject 5] [] eq_refl eq_refl eq_refl).
  - reflexivity.
Defined.

(** ** A scope inside a scope *)

(** The scope of a wrapper that owns a handle, around any computation. *)
Lemma unflatten_as_params_owned_body {A} (w : World) (h : FlatParamHandle)
    (body : M A) :
  _flat_param_handle (self w) = Some h ->
  unflatten_as_params body w
  = (let (r, w2) :=
       body {| self := set_parameters (delete "flat_param") (self w);
               views := views_set h true (views w);
               trace := trace w ++ [use_unsharded_views h true] |} in
     let (r', w4) :=
       (hv <- handle ;;
        uop <- lift (value_getattr hv "_use_orig_params") ;;
        if negb (truthy uop) then _register_flat_param else ret tt)
         {| self := self w2; views := views_set h false (views w2);
            trace := trace w2 ++ [use_unsharded_views h false] |} in
     (match r' with Ok _ => r | Raise e => Raise e end, w4)).
Proof.
  intros Hown. unfold unflatten_as_params, bind at 1.
  rewrite (flat_param_owned w h Hown).
  unfold bind at 1. rewrite _deregister_flat_param_eval.
  set (w1 := {| self := set_parameters (delete "flat_param") (self w);
                views := views w; trace := trace w |}).
  assert (_flat_param_handle (self w1) = Some h) as Hown1 by exact Hown.
  unfold try_finally at 1, bind at 1, self_getattr at 1, bind at 1, get,
    lift at 1.
  rewrite (getattr_own_handle w1 h Hown1).
  unfold bind at 1, lift at 1. cbn [as_handle].
  unfold FlatParamHandle_unflatten_as_params, bind at 1.
  rewrite use_unsharded_views_eval. unfold try_finally at 1.
  subst w1. cbn [self views trace].
  destruct (body _) as [r w2]. rewrite use_unsharded_views_eval.
  destruct ((hv <- handle ;; _) _) as [[[]|e] w4]; reflexivity.
Qed.

(** Re-entering the scope from inside its own block registers too early:
    for a wrapper that owns a handle with [use_orig_params = False], once
    the inner scope has returned, the rest of the outer block already runs
    with [flat_param] registered and the views retracted, although the
    outer scope is still open. *)
Theorem nested_scope_registers_before_outer_exit
    (w : World) (h : FlatParamHandle)
    (f : Views -> result unit * Views) (v' : Views) :
  _flat_param_handle (self w) = Some h ->
  handle_use_orig_params h = false ->
  f (views_set h true (views_set h true (views w))) = (Ok tt, v') ->
  exists w_mid w',
    unflatten_as_params (unflatten_as_params (lift_views f) ;;; get) w
    = (Ok w_mid, w') /\
    _parameters (self w_mid) !! "flat_param"
    = Some (VTensor (handle_flat_param h)) /\
    views w_mid h = false /\
    trace w_mid = trace w ++ [use_unsharded_views h true;
                              use_unsharded_views h true;
                              use_unsharded_views h false].
Proof.
  intros Hown Huop Hf.
  rewrite (unflatten_as_params_owned_body w h _ Hown).
  unfold bind at 1.
  rewrite (unflatten_as_params_owned _ h f) by exact Hown.
  cbn [self views trace]. rewrite Hf. unfold get at 1.
  set (w_mid := {| self := after_scope h _; views := views_set h false v';
                   trace := _ |}).
  assert (_flat_param_handle (self w_mid) = Some h) as Hmid.
  { subst w_mid. cbn [self]. unfold after_scope. rewrite Huop.
    exact Hown. }
  set (w3 := {| self := self w_mid; views := views_set h false (views w_mid);
                trace := trace w_mid ++ [use_unsharded_views h false] |}).
  assert (_flat_param_handle (self w3) = Some h) as Hown3 by exact Hmid.
  unfold bind at 1. rewrite (handle_owned w3 h Hown3).
  unfold bind at 1, lift at 1. cbn [value_getattr String.eqb Ascii.eqb Bool.eqb].
  rewrite Huop. cbn [truthy negb].
  rewrite (_register_flat_param_owned w3 h Hown3).
  exists w_mid. eexists. split; [reflexivity|].
  subst w_mid. cbn [self views trace]. unfold after_scope. rewrite Huop.
  unfold set_parameters. cbn [_parameters].
  split; [apply lookup_insert_eq|]. split; [apply views_set_same|].
  now rewrite <- app_assoc.
Qed.

Lemma nested_scope_registers_before_outer_exit_witness :
  exists w_mid w',
    unflatten_as_params
      (unflatten_as_params (lift_views (fun v => (Ok tt, v))) ;;; get)
      flat_world
    = (Ok w_mid, w') /\
    _parameters (self w_mid) !! "flat_param"
    = Some (VTensor (FlatParameter [1; 2])).
Proof.
  destruct (nested_scope_registers_before_outer_exit flat_world
              (FlatParamHandle_new [1; 2] linear_module "cpu" [] false)
              (fun v => (Ok tt, v)) _ eq_refl eq_refl eq_refl)
    as (w_mid & w' & Hrun & Hreg & _).
  exists w_mid, w'. split; [exact Hrun | exact Hreg].
Defined.

(** ** A handle seen through the attribute fallback *)

Section through_fallback.
Context (m : Module) (hh : FlatParamHandle).
Hypothesis Hchild : module_getattr m "_flat_param_handle" = Ok (VHandle hh).

(** A wrapper without a handle of its own, whose registry holds at most
    [flat_param]. *)
Let bare (o : FlattenParamsWrapper) : Prop :=
  _flat_param_handle o = None /\ _fpw_module o = Some m /\
  _parameters o !! "_flat_param_handle" = None.

Lemma getattr_fallback_handle o :
  bare o -> getattr o "_flat_param_handle" = Ok (VHandle hh).
Proof.
  intros (Hnone & Hm & Hpar). unfold getattr, instance_attr.
  cbn [String.eqb Ascii.eqb Bool.eqb]. rewrite Hnone. cbn [fmap option_fmap option_map].
  unfold __getattr__, nn_Module___getattr__, module. rewrite Hpar, Hm.
  cbn [String.eqb Ascii.eqb Bool.eqb]. unfold no_attribute. exact Hchild.
Qed.

Lemma has_params_fallback w : bare (self w) -> has_params w = (Ok true, w).
Proof.
  intros Hb. unfold has_params, bind, get, lift, hasattr.
  now rewrite getattr_fallback_handle.
Qed.

Lemma handle_fallback w : bare (self w) -> handle w = (Ok (VHandle hh), w).
Proof.
  intros Hb. unfold handle, bind, get, lift, self_getattr, hasattr.
  rewrite getattr_fallback_handle by exact Hb. unfold bind, get, lift.
  now rewrite getattr_fallback_handle.
Qed.

Lemma flat_param_fallback w :
  bare (self w) -> flat_param w = (Ok (VTensor (handle_flat_param hh)), w).
Proof.
  intros Hb. unfold flat_param, bind.
  now rewrite has_params_fallback, handle_fallback.
Qed.

Lemma bare_deregistered o : bare o -> bare (set_parameters (delete "flat_param") o).
Proof.
  intros (Hnone & Hm & Hpar). repeat split; try assumption.
  unfold set_parameters. cbn [_parameters].
  now rewrite lookup_delete_ne.
Qed.

(** A wrapper built without parameters whose wrapped module exposes a
    handle treats that handle as its own: [has_params] is true, and a scope
    around any block asks the module's handle to install and retract the
    views and, when that handle has [use_orig_params = False], leaves the
    module's flattened parameter registered in the wrapper's own registry,
    where it was not registered before. *)
Lemma scope_through_fallback {A} (w : World) (f : Views -> result A * Views) :
  bare (self w) ->
  handle_use_orig_params hh = false ->
  exists w',
    unflatten_as_params (lift_views f) w
    = ((f (views_set hh true (views w))).1, w') /\
    _parameters (self w') !! "flat_param"
    = Some (VTensor (handle_flat_param hh)) /\
    trace w' = trace w ++ [use_unsharded_views hh true;
                           use_unsharded_views hh false].
Proof.
  intros Hb Huop. unfold unflatten_as_params, bind at 1.
  rewrite (flat_param_fallback w Hb).
  unfold bind at 1. rewrite _deregister_flat_param_eval.
  set (w1 := {| self := set_parameters (delete "flat_param") (self w);
                views := views w; trace := trace w |}).
  assert (bare (self w1)) as Hb1 by now apply bare_deregistered.
  unfold try_finally at 1, bind at 1, self_getattr at 1, bind at 1, get,
    lift at 1.
  rewrite (getattr_fallback_handle _ Hb1).
  unfold bind at 1, lift at 1. cbn [as_handle].
  unfold FlatParamHandle_unflatten_as_params, bind at 1.
  rewrite use_unsharded_views_eval. unfold try_finally at 1, lift_views.
  subst w1. cbn [self views trace].
  destruct (f (views_set hh true (views w))) as [r v'].
  rewrite use_unsharded_views_eval. cbn [self views trace].
  set (w3 := {| self := set_parameters (delete "flat_param") (self w);
                views := views_set hh false v';
                trace := (trace w ++ [use_unsharded_views hh true])
                         ++ [use_unsharded_views hh false] |}).
  assert (bare (self w3)) as Hb3 by exact Hb1.
  unfold bind at 1. rewrite (handle_fallback w3 Hb3).
  unfold bind at 1, lift at 1. cbn [value_getattr String.eqb Ascii.eqb Bool.eqb].
  rewrite Huop. cbn [truthy negb].
  unfold _register_flat_param, bind. rewrite (flat_param_fallback w3 Hb3).
  unfold set_self, modify. eexists. split; [reflexivity|].
  cbn [self trace]. unfold set_parameters at 1. cbn [_parameters].
  split; [apply lookup_insert_eq |].
  subst w3. cbn [trace]. now rewrite <- app_assoc.
Qed.

End through_fallback.

(** A wrapper built with an empty parameter list around a module that
    exposes a handle with [use_orig_params = False] has nothing registered
    after construction, reports [has_params], and after a scope around any
    block holds the module's flattened parameter in its own registry. *)
Theorem scope_registers_the_wrapped_handle {A}
    (m : Module) (hh : FlatParamHandle) (device : string)
    (config : list string) (use_orig_params : bool) (v : Views) (w0 : World)
    (f : Views -> result A * Views) :
  module_getattr m "_flat_param_handle" = Ok (VHandle hh) ->
  handle_use_orig_params hh = false ->
  FlattenParamsWrapper_new m [] device config use_orig_params v = (Ok tt, w0) ->
  _parameters (self w0) !! "flat_param" = None /\
  has_params w0 = (Ok true, w0) /\
  exists w',
    unflatten_as_params (lift_views f) w0 = ((f (views_set hh true v)).1, w') /\
    _parameters (self w') !! "flat_param"
    = Some (VTensor (handle_flat_param hh)) /\
    trace w' = [use_unsharded_views hh true; use_unsharded_views hh false].
Proof.
  intros Hchild Huop Hnew. rewrite new_without_params in Hnew.
  injection Hnew as <-.
  assert (_flat_param_handle (constructed_empty m) = None /\
          _fpw_module (constructed_empty m) = Some m /\
          _parameters (constructed_empty m) !! "_flat_param_handle" = None)
    as Hbare by (repeat split; apply lookup_empty).
  set (w0 := {| self := constructed_empty m; views := v; trace := [] |}).
  split; [apply lookup_empty|]. split.
  - exact (has_params_fallback m hh Hchild w0 Hbare).
  - exact (scope_through_fallback m hh Hchild w0 f Hbare Huop).
Qed.

Lemma scope_registers_the_wrapped_handle_witness :
  exists w',
    unflatten_as_params (lift_views (fun v => (Ok tt, v))) outer_world
    = (Ok tt, w') /\
    _parameters (self w') !! "flat_param"
    = Some (VTensor (FlatParameter [1; 2])).
Proof.
  destruct (scope_registers_the_wrapped_handle inner_module
              (FlatParamHandle_new [1; 2] plain_module "cpu" [] false)
              "cpu" [] false (fun _ => false) outer_world
              (fun v => (Ok tt, v)) eq_refl eq_refl eq_refl)
    as (_ & _ & w' & Hrun & Hreg & _).
  exists w'. split; [exact Hrun | exact Hreg].
Defined.

(** ** What the fallback does to the scope and to [forward] *)

(** C1 fails on the code.  The wrapper of [outer_world] was built with an
    empty parameter list and [use_orig_params=False] around a wrapper that
    manages parameters, so its [has_params] is true through the fallback of
    [__getattr__] and its registry holds no [flat_param].  When the block
    raises [e], the scope raises [e] and the inner handle's views are
    retracted, but the [finally] clause has registered the inner flattened
    parameter in the outer registry: the registration is not what it was
    before entry. *)
Theorem unflatten_as_params_error_registers_wrapped_flat_param (e : Exn) :
  has_params outer_world = (Ok true, outer_world) /\
  _parameters (self outer_world) !! "flat_param" = None /\
  exists w',
    unflatten_as_params (A := unit) (lift_views (fun v => (Raise e, v)))
      outer_world
    = (Raise e, w') /\
    _parameters (self w') !! "flat_param"
    = Some (VTensor (FlatParameter [1; 2])) /\
    views w' (FlatParamHandle_new [1; 2] plain_module "cpu" [] false) = false.
Proof.
  split; [reflexivity|]. split; [reflexivity|].
  eexists. split; [reflexivity|]. split; reflexivity.
Qed.

(** C8 fails on the code.  On the same wrapper a scope around an empty
    block returns normally and [flat_param] returns the same tensor before
    and after, but the registry, which held no [flat_param] before entry,
    holds the inner flattened parameter afterwards: the wrapper object is
    not what it was. *)
Theorem unflatten_as_params_empty_block_registers_wrapped_flat_param :
  has_params outer_world = (Ok true, outer_world) /\
  flat_param outer_world = (Ok (VTensor (FlatParameter [1; 2])), outer_world) /\
  _parameters (self outer_world) !! "flat_param" = None /\
  exists w',
    unflatten_as_params (ret tt) outer_world = (Ok tt, w') /\
    _parameters (self w') !! "flat_param"
    = Some (VTensor (FlatParameter [1; 2])) /\
    self w' <> self outer_world /\
    flat_param w' = (Ok (VTensor (FlatParameter [1; 2])), w').
Proof.
  split; [reflexivity|]. split; [reflexivity|]. split; [reflexivity|].
  eexists. split; [reflexivity|]. split; [reflexivity|]. split.
  - intros Heq. apply (f_equal (fun o => _parameters o !! "flat_param")) in Heq.
    discriminate Heq.
  - reflexivity.
Qed.

(** C5 fails on the code.  The wrapper of [outer_world_orig] was built with
    an empty parameter list and [use_orig_params=False] around a wrapper
    built with [use_orig_params=True].  Its [has_params] is true through the
    fallback; [__init__] returned before storing [_use_orig_params], so
    [forward] reads the inner wrapper's flag through the same fallback,
    finds it true, and calls the wrapped module without asking any handle
    for the flattened representation. *)
Theorem forward_behind_fallback_skips_the_handle
    (inputs : list Value) (kwinputs : list (string * Value)) :
  has_params outer_world_orig = (Ok true, outer_world_orig) /\
  _flat_param_handle (self outer_world_orig) = None /\
  _use_orig_params (self outer_world_orig) = None /\
  forward inputs kwinputs outer_world_orig
  = (Ok VNone,
     {| self := self outer_world_orig; views := views outer_world_orig;
        trace := [call_module "inner" inputs kwinputs] |}).
Proof. repeat split. Qed.
